(** * aiomisc.worker_pool.pool: the process pool supervisor

    A shallow embedding of [WorkerPool] (src/aiomisc/worker_pool/pool.py).

    The pool runs on one asyncio event loop.  Scheduling is cooperative: a
    coroutine runs without interruption from one [await] that suspends to the
    next.  The embedding makes every such uninterrupted block one transition
    of a state machine over the pool object and the coroutines it has in
    flight; the event that fires the transition names the coroutine that the
    loop resumes and carries what the outside world chose (a packet read from
    a socket, an exit code, a random identity).

    Python objects that are shared and mutated (futures, [Popen] handles)
    live in stores indexed by their position; the pool's attributes hold
    these indices, as the Python attributes hold references.

    One method of the pool, [__create_process], does not run on the loop: it
    is handed to a thread, and what the thread does is one more
    transition, which the loop cannot hold back. *)

From stdpp Require Import gmap strings list fin_maps.
From Stdlib Require Import ZArith.
From Stdlib.Strings Require Import Byte.

#[local] Set Warnings "-clear-no-such-hyp".

#[global] Instance byte_eq_decision : EqDecision byte := byte_eq_dec.

(** ** Python values *)

Definition bytes := list byte.

(** [PacketTypes] of aiomisc.worker_pool.constants. *)
Inductive PacketTypes :=
| AUTH_SALT | AUTH_DIGEST | AUTH_OK | IDENTITY | REQUEST | RESULT | EXCEPTION.

#[global] Instance PacketTypes_eq_decision : EqDecision PacketTypes.
Proof. solve_decision. Defined.

(** The exceptions that the pool raises, stores in futures or lets through. *)
Inductive exn :=
| CancelledError
| InvalidStateError
| KeyError
| AssertionError
| TypeError
| AttributeError
| IncompleteReadError
| AuthenticationError (msg : string)
| ProcessError (process : nat) (code : option Z)
| RuntimeError (msg : string)
| ValueError (msg : string)
| OtherError (tag : nat).

(** The call descriptor [(func, args, kwargs)]; arguments are opaque to the
    pool, which only pickles them. *)
Record call := Call {
  func : string;
  args : list Z;
  kwargs : list (string * Z)
}.

(** A Python object as far as the pool looks into it: what [pickle.loads]
    yields from a payload, what a future is resolved to. [DPopen p] is a
    reference to the [Popen] object stored at index [p]. *)
Inductive data :=
| DNone
| DBool (b : bool)
| DInt (z : Z)
| DBytes (b : bytes)
| DStr (s : string)
| DExn (e : exn)
| DCall (c : call)
| DPopen (p : nat).

Definition packet : Type := PacketTypes * data.

(** ** asyncio.Future

    A future is pending until it is resolved with a result, an exception or
    a cancellation. *)
Inductive future :=
| Pending
| Result (v : data)
| Exception (e : exn)
| Cancelled.

(** [Future.done()] *)
Definition done (f : future) : bool :=
  match f with Pending => false | _ => true end.

(** ** subprocess.Popen

    [exit_status] is what the operating system knows ([None] while the child
    runs); [returncode] is the attribute of the handle, filled in by
    [poll()]; [signalled] records that [kill()] was called on the handle. *)
Record Popen := {
  exit_status : option Z;
  returncode : option Z;
  signalled : bool
}.

Definition Popen_new : Popen :=
  {| exit_status := None; returncode := None; signalled := false |}.

(** [Popen.poll()]: refresh [returncode] from the operating system. *)
Definition poll (p : Popen) : Popen :=
  match returncode p with
  | Some _ => p
  | None => {| exit_status := exit_status p; returncode := exit_status p;
               signalled := signalled p |}
  end.

(** [Popen.kill()]: SIGKILL; a child still running exits with status -9. *)
Definition kill (p : Popen) : Popen :=
  {| exit_status := match exit_status p with Some c => Some c | None => Some (-9)%Z end;
     returncode := returncode p;
     signalled := true |}.

(** The child terminates by itself with [code]. *)
Definition os_exit (code : Z) (p : Popen) : Popen :=
  {| exit_status := match exit_status p with Some c => Some c | None => Some code end;
     returncode := returncode p;
     signalled := signalled p |}.

(** [WorkerPool._kill_process] (lines 48-52) *)
Definition _kill_process (process : Popen) : Popen :=
  match returncode process with
  | Some _ => process
  | None => kill process
  end.

(** ** Coroutines of the pool *)

(** The task descriptor put on [self.tasks] by [create_task] (lines 269-271):
    the two futures are indices into the future store. *)
Record task := Task {
  task_call : call;
  result_future : nat;
  process_future : nat
}.

(** Where the [handler()] coroutine of one accepted connection is suspended
    (lines 134-200). *)
Inductive handler :=
| HRecvSalt                                   (* line 137 *)
| HRecvDigest (salt : data)                   (* line 140 *)
| HRecvIdentity                               (* line 156 *)
| HGet (process : nat)                        (* line 170: await self.tasks.get() *)
| HStep (process : nat) (t : task)            (* line 122: REQUEST sent, await receive() *)
| HWaitProcess (process : nat) (t : task)     (* line 183: inside __wait_process *)
| HDone (raised : option exn).                (* returned (None) or raised *)

(** How a [create_task] call ended. *)
Inductive outcome :=
| Returned (v : data)
| Raised (e : exn).

(** Where one [create_task()] call is suspended (lines 262-279). *)
Inductive submission :=
| SPut (t : task)                             (* line 269: queue full *)
| SAwaitProcess (t : task)                    (* line 273 *)
| SAwaitResult (t : task) (process : data)    (* line 276, inside try *)
| SDone (o : outcome).

(** A call of the threaded [__create_process] (lines 54-71). *)
Inductive thread :=
| TQueued (identity : string)                 (* handed to a thread, line 56 not reached *)
| TDone (process : nat).                      (* line 71: the body returned *)

(** Where one [respawn()] task created by [__on_exit] is (lines 221-226). *)
Inductive respawn :=
| RInit (dead : nat)                          (* created, not yet run *)
| RCreate (dead job : nat)                    (* line 234: await __create_process *)
| RDone (raised : option exn).

(** Where one [start_server()] call is suspended (lines 210-218). *)
Inductive start :=
| StListen                                    (* line 211: await asyncio.start_server *)
| StCreate (n job : nat)                      (* worker n, line 234: await __create_process *)
| StDone.

(** Calls handed to [loop.call_soon], by the pool or by a future that runs
    its done callbacks. *)
Inductive callback :=
| CbFuturesRemove (f : nat)                   (* self.__futures.remove, line 243 *)
| CbSetException (f : nat) (e : exn)          (* line 195 *)
| CbWriterClose (c : nat).                    (* line 198 *)

(** ** The pool object and its event loop *)

Record WorkerPool := {
  (* module constant HASHER of aiomisc.worker_pool.constants: the digest of
     the bytes fed to a fresh hasher *)
  HASHER : bytes -> bytes;
  (* attributes assigned by __init__ *)
  cookie : bytes;                     (* self.__cookie *)
  workers : nat;
  maxsize : Z;                        (* self.tasks.maxsize *)
  closing : bool;                     (* self.__closing *)
  futures : gset nat;                 (* self.__futures *)
  spawning : gmap string nat;         (* self.__spawning *)
  processes : gset nat;               (* self.processes *)
  tasks : list task;                  (* items held by self.tasks *)
  (* object stores *)
  fut : list future;
  proc : list Popen;
  (* coroutines: handlers by connection, submissions by call, the
     __wait_process tasks by process, respawn tasks by creation, and the
     number of close() calls suspended at line 255 *)
  handlers : list handler;
  submissions : list submission;
  waiters : gset nat;
  respawns : list respawn;
  closers : nat;
  (* the loop's call_soon queue, the packets written per connection and the
     connections whose writer was closed *)
  ready : list callback;
  sent : list (nat * packet);
  closed : gset nat;
  (* the calls of __create_process handed to threads, and the
     start_server() calls, both by creation *)
  threads : list thread;
  starts : list start
}.

(** Attribute assignment: [set_x v s] is [s] after [self.x = v]. *)

Definition set_closing (v : bool) (s : WorkerPool) : WorkerPool :=
  {| HASHER := HASHER s; cookie := cookie s; workers := workers s;
     maxsize := maxsize s; closing := v; futures := futures s;
     spawning := spawning s; processes := processes s; tasks := tasks s;
     fut := fut s; proc := proc s; handlers := handlers s;
     submissions := submissions s; waiters := waiters s;
     respawns := respawns s; closers := closers s; ready := ready s;
     sent := sent s; closed := closed s; threads := threads s;
     starts := starts s |}.

Definition set_futures (v : gset nat) (s : WorkerPool) : WorkerPool :=
  {| HASHER := HASHER s; cookie := cookie s; workers := workers s;
     maxsize := maxsize s; closing := closing s; futures := v;
     spawning := spawning s; processes := processes s; tasks := tasks s;
     fut := fut s; proc := proc s; handlers := handlers s;
     submissions := submissions s; waiters := waiters s;
     respawns := respawns s; closers := closers s; ready := ready s;
     sent := sent s; closed := closed s; threads := threads s;
     starts := starts s |}.

Definition set_spawning (v : gmap string nat) (s : WorkerPool) : WorkerPool :=
  {| HASHER := HASHER s; cookie := cookie s; workers := workers s;
     maxsize := maxsize s; closing := closing s; futures := futures s;
     spawning := v; processes := processes s; tasks := tasks s; fut := fut s;
     proc := proc s; handlers := handlers s; submissions := submissions s;
     waiters := waiters s; respawns := respawns s; closers := closers s;
     ready := ready s; sent := sent s; closed := closed s; threads := threads s;
     starts := starts s |}.

Definition set_processes (v : gset nat) (s : WorkerPool) : WorkerPool :=
  {| HASHER := HASHER s; cookie := cookie s; workers := workers s;
     maxsize := maxsize s; closing := closing s; futures := futures s;
     spawning := spawning s; processes := v; tasks := tasks s; fut := fut s;
     proc := proc s; handlers := handlers s; submissions := submissions s;
     waiters := waiters s; respawns := respawns s; closers := closers s;
     ready := ready s; sent := sent s; closed := closed s; threads := threads s;
     starts := starts s |}.

Definition set_tasks (v : list task) (s : WorkerPool) : WorkerPool :=
  {| HASHER := HASHER s; cookie := cookie s; workers := workers s;
     maxsize := maxsize s; closing := closing s; futures := futures s;
     spawning := spawning s; processes := processes s; tasks := v;
     fut := fut s; proc := proc s; handlers := handlers s;
     submissions := submissions s; waiters := waiters s;
     respawns := respawns s; closers := closers s; ready := ready s;
     sent := sent s; closed := closed s; threads := threads s;
     starts := starts s |}.

Definition set_fut (v : list future) (s : WorkerPool) : WorkerPool :=
  {| HASHER := HASHER s; cookie := cookie s; workers := workers s;
     maxsize := maxsize s; closing := closing s; futures := futures s;
     spawning := spawning s; processes := processes s; tasks := tasks s;
     fut := v; proc := proc s; handlers := handlers s;
     submissions := submissions s; waiters := waiters s;
     respawns := respawns s; closers := closers s; ready := ready s;
     sent := sent s; closed := closed s; threads := threads s;
     starts := starts s |}.

Definition set_proc (v : list Popen) (s : WorkerPool) : WorkerPool :=
  {| HASHER := HASHER s; cookie := cookie s; workers := workers s;
     maxsize := maxsize s; closing := closing s; futures := futures s;
     spawning := spawning s; processes := processes s; tasks := tasks s;
     fut := fut s; proc := v; handlers := handlers s;
     submissions := submissions s; waiters := waiters s;
     respawns := respawns s; closers := closers s; ready := ready s;
     sent := sent s; closed := closed s; threads := threads s;
     starts := starts s |}.

Definition set_handlers (v : list handler) (s : WorkerPool) : WorkerPool :=
  {| HASHER := HASHER s; cookie := cookie s; workers := workers s;
     maxsize := maxsize s; closing := closing s; futures := futures s;
     spawning := spawning s; processes := processes s; tasks := tasks s;
     fut := fut s; proc := proc s; handlers := v;
     submissions := submissions s; waiters := waiters s;
     respawns := respawns s; closers := closers s; ready := ready s;
     sent := sent s; closed := closed s; threads := threads s;
     starts := starts s |}.

Definition set_submissions (v : list submission) (s : WorkerPool) : WorkerPool :=
  {| HASHER := HASHER s; cookie := cookie s; workers := workers s;
     maxsize := maxsize s; closing := closing s; futures := futures s;
     spawning := spawning s; processes := processes s; tasks := tasks s;
     fut := fut s; proc := proc s; handlers := handlers s; submissions := v;
     waiters := waiters s; respawns := respawns s; closers := closers s;
     ready := ready s; sent := sent s; closed := closed s; threads := threads s;
     starts := starts s |}.

Definition set_waiters (v : gset nat) (s : WorkerPool) : WorkerPool :=
  {| HASHER := HASHER s; cookie := cookie s; workers := workers s;
     maxsize := maxsize s; closing := closing s; futures := futures s;
     spawning := spawning s; processes := processes s; tasks := tasks s;
     fut := fut s; proc := proc s; handlers := handlers s;
     submissions := submissions s; waiters := v; respawns := respawns s;
     closers := closers s; ready := ready s; sent := sent s;
     closed := closed s; threads := threads s;
     starts := starts s |}.

Definition set_respawns (v : list respawn) (s : WorkerPool) : WorkerPool :=
  {| HASHER := HASHER s; cookie := cookie s; workers := workers s;
     maxsize := maxsize s; closing := closing s; futures := futures s;
     spawning := spawning s; processes := processes s; tasks := tasks s;
     fut := fut s; proc := proc s; handlers := handlers s;
     submissions := submissions s; waiters := waiters s; respawns := v;
     closers := closers s; ready := ready s; sent := sent s;
     closed := closed s; threads := threads s;
     starts := starts s |}.

Definition set_closers (v : nat) (s : WorkerPool) : WorkerPool :=
  {| HASHER := HASHER s; cookie := cookie s; workers := workers s;
     maxsize := maxsize s; closing := closing s; futures := futures s;
     spawning := spawning s; processes := processes s; tasks := tasks s;
     fut := fut s; proc := proc s; handlers := handlers s;
     submissions := submissions s; waiters := waiters s;
     respawns := respawns s; closers := v; ready := ready s; sent := sent s;
     closed := closed s; threads := threads s;
     starts := starts s |}.

Definition set_ready (v : list callback) (s : WorkerPool) : WorkerPool :=
  {| HASHER := HASHER s; cookie := cookie s; workers := workers s;
     maxsize := maxsize s; closing := closing s; futures := futures s;
     spawning := spawning s; processes := processes s; tasks := tasks s;
     fut := fut s; proc := proc s; handlers := handlers s;
     submissions := submissions s; waiters := waiters s;
     respawns := respawns s; closers := closers s; ready := v;
     sent := sent s; closed := closed s; threads := threads s;
     starts := starts s |}.

Definition set_sent (v : list (nat * packet)) (s : WorkerPool) : WorkerPool :=
  {| HASHER := HASHER s; cookie := cookie s; workers := workers s;
     maxsize := maxsize s; closing := closing s; futures := futures s;
     spawning := spawning s; processes := processes s; tasks := tasks s;
     fut := fut s; proc := proc s; handlers := handlers s;
     submissions := submissions s; waiters := waiters s;
     respawns := respawns s; closers := closers s; ready := ready s;
     sent := v; closed := closed s; threads := threads s;
     starts := starts s |}.

Definition set_closed (v : gset nat) (s : WorkerPool) : WorkerPool :=
  {| HASHER := HASHER s; cookie := cookie s; workers := workers s;
     maxsize := maxsize s; closing := closing s; futures := futures s;
     spawning := spawning s; processes := processes s; tasks := tasks s;
     fut := fut s; proc := proc s; handlers := handlers s;
     submissions := submissions s; waiters := waiters s;
     respawns := respawns s; closers := closers s; ready := ready s;
     sent := sent s; closed := v; threads := threads s; starts := starts s |}.

Definition set_threads (v : list thread) (s : WorkerPool) : WorkerPool :=
  {| HASHER := HASHER s; cookie := cookie s; workers := workers s;
     maxsize := maxsize s; closing := closing s; futures := futures s;
     spawning := spawning s; processes := processes s; tasks := tasks s;
     fut := fut s; proc := proc s; handlers := handlers s;
     submissions := submissions s; waiters := waiters s;
     respawns := respawns s; closers := closers s; ready := ready s;
     sent := sent s; closed := closed s; threads := v; starts := starts s |}.

Definition set_starts (v : list start) (s : WorkerPool) : WorkerPool :=
  {| HASHER := HASHER s; cookie := cookie s; workers := workers s;
     maxsize := maxsize s; closing := closing s; futures := futures s;
     spawning := spawning s; processes := processes s; tasks := tasks s;
     fut := fut s; proc := proc s; handlers := handlers s;
     submissions := submissions s; waiters := waiters s;
     respawns := respawns s; closers := closers s; ready := ready s;
     sent := sent s; closed := closed s; threads := threads s; starts := v |}.

(** ** Futures, the loop and the sockets *)

(** [loop.call_soon(cb)] *)
Definition call_soon (cb : callback) (s : WorkerPool) : WorkerPool :=
  set_ready (ready s ++ [cb]) s.

(** [future.done()] for the future stored at [f]. *)
Definition future_done (f : nat) (s : WorkerPool) : bool :=
  match fut s !! f with
  | Some st => done st
  | None => false
  end.

(** Resolving a future. [set_result], [set_exception] and [cancel] change a
    pending future only, and hand its done callback ([self.__futures.remove],
    line 243) to [call_soon].  On a future that is done the first two raise
    [InvalidStateError] and [cancel] returns [False]: here [None]. *)
Definition resolve (f : nat) (v : future) (s : WorkerPool) : option WorkerPool :=
  match fut s !! f with
  | Some Pending =>
      Some (call_soon (CbFuturesRemove f) (set_fut (<[f := v]> (fut s)) s))
  | _ => None
  end.

(** [future.cancel()] *)
Definition cancel_future (f : nat) (s : WorkerPool) : WorkerPool :=
  default s (resolve f Cancelled s).

(** [WorkerPool.__create_future] (lines 240-244) *)
Definition create_future (s : WorkerPool) : nat * WorkerPool :=
  let future := length (fut s) in
  (future, set_futures ({[future]} ∪ futures s) (set_fut (fut s ++ [Pending]) s)).

(** [send] of [__handle_client] (lines 109-114) on connection [c]. *)
Definition send (c : nat) (packet_type : PacketTypes) (d : data)
    (s : WorkerPool) : WorkerPool :=
  set_sent (sent s ++ [(c, (packet_type, d))]) s.

Definition set_handler (c : nat) (h : handler) (s : WorkerPool) : WorkerPool :=
  set_handlers (<[c := h]> (handlers s)) s.

Definition set_submission (i : nat) (x : submission) (s : WorkerPool) : WorkerPool :=
  set_submissions (<[i := x]> (submissions s)) s.

Definition set_respawn (r : nat) (x : respawn) (s : WorkerPool) : WorkerPool :=
  set_respawns (<[r := x]> (respawns s)) s.

Definition set_thread (j : nat) (x : thread) (s : WorkerPool) : WorkerPool :=
  set_threads (<[j := x]> (threads s)) s.

Definition set_start (i : nat) (x : start) (s : WorkerPool) : WorkerPool :=
  set_starts (<[i := x]> (starts s)) s.

(** A method call on the [Popen] object stored at [p]. *)
Definition on_process (f : Popen -> Popen) (p : nat) (s : WorkerPool) : WorkerPool :=
  set_proc (alter f p (proc s)) s.

(** The attribute [process.returncode]. *)
Definition process_returncode (p : nat) (s : WorkerPool) : option Z :=
  proc s !! p ≫= returncode.

(** [self._kill_process(process)] where [process] is whatever the process
    future was resolved to. *)
Definition kill_object (process : data) (s : WorkerPool) : option WorkerPool :=
  match process with
  | DPopen p => Some (on_process _kill_process p s)
  | _ => None
  end.

(** ** asyncio.Queue

    [Queue.full()]: a queue built with [maxsize <= 0] is never full. *)
Definition full (s : WorkerPool) : bool :=
  if (maxsize s <=? 0)%Z then false
  else (maxsize s <=? Z.of_nat (length (tasks s)))%Z.

(** [Queue.put_nowait] *)
Definition put_nowait (t : task) (s : WorkerPool) : WorkerPool :=
  set_tasks (tasks s ++ [t]) s.

(** ** The connection handler (lines 134-200) *)

(** Lines 193-200: [except Exception as e]. *)
Definition handler_except (c : nat) (t : task) (e : exn) (s : WorkerPool) : WorkerPool :=
  let s := if future_done (result_future t) s then s
           else call_soon (CbSetException (result_future t) e) s in
  let s := if decide (c ∈ closed s) then s
           else call_soon (CbWriterClose c) s in
  set_handler c (HDone (Some e)) s.

(** Lines 161-181, from [await self.tasks.get()] on: the handler takes
    descriptors off the queue until one needs a worker, and suspends either
    in [get()] on an empty queue or in [receive()] after the REQUEST of
    [step] went out (lines 120-122). [queue] is the content of
    [self.tasks]. *)
Fixpoint handler_loop (c process : nat) (queue : list task) (s : WorkerPool)
    : WorkerPool :=
  match queue with
  | [] => set_handler c (HGet process) (set_tasks [] s)
  | t :: queue =>
      let s := set_tasks queue s in
      if future_done (process_future t) s then handler_loop c process queue s
      else
        match resolve (process_future t) (Result (DPopen process)) s with
        | None => handler_except c t InvalidStateError s
        | Some s =>
            if future_done (result_future t) s then handler_loop c process queue s
            else set_handler c (HStep process t)
                   (send c REQUEST (DCall (task_call t)) s)
        end
  end.

(** Lines 122-132 of [step]: the response to a REQUEST has been received. *)
Definition step_response (c process : nat) (t : task) (p : packet)
    (s : WorkerPool) : WorkerPool :=
  let '(packet_type, result) := p in
  let resolved :=
    match packet_type with
    | RESULT => inr (Result result)
    | EXCEPTION =>
        match result with
        | DExn e => inr (Exception e)
        | _ => inl TypeError
        end
    | _ => inl (ValueError "Unknown packet type")
    end in
  match resolved with
  | inr v =>
      match resolve (result_future t) v s with
      | Some s => handler_loop c process (tasks s) s
      | None => handler_except c t InvalidStateError s
      end
  | inl e => handler_except c t e s
  end.

(** Lines 182-192: [except asyncio.IncompleteReadError], with
    [__wait_process] (lines 89-91) inlined: one turn of its loop per call. *)
Definition handler_wait_process (c process : nat) (t : task) (s : WorkerPool)
    : WorkerPool :=
  let s := on_process poll process s in
  match process_returncode process s with
  | None => set_handler c (HWaitProcess process t) s
  | Some _ =>
      let exc := ProcessError process (process_returncode process s) in
      match resolve (result_future t) (Exception exc) s with
      | Some s => set_handler c (HDone None) s
      | None => set_handler c (HDone (Some InvalidStateError)) s
      end
  end.

(** Lines 137-138 *)
Definition handler_salt (c : nat) (p : packet) (s : WorkerPool) : WorkerPool :=
  let '(packet_type, salt) := p in
  if decide (packet_type = AUTH_SALT) then set_handler c (HRecvDigest salt) s
  else set_handler c (HDone (Some AssertionError)) s.

(** [digest != hasher.digest()] (line 147) *)
Definition digest_ne (digest : data) (expected : bytes) : bool :=
  match digest with
  | DBytes d => bool_decide (d ≠ expected)
  | _ => true
  end.

(** Lines 140-154 *)
Definition handler_digest (c : nat) (salt : data) (p : packet) (s : WorkerPool)
    : WorkerPool :=
  let '(packet_type, digest) := p in
  if decide (packet_type = AUTH_DIGEST) then
    match salt with
    | DBytes salt =>
        if digest_ne digest (HASHER s (salt ++ cookie s)) then
          let exc := AuthenticationError "Invalid cookie" in
          set_handler c (HDone (Some exc)) (send c EXCEPTION (DExn exc) s)
        else set_handler c HRecvIdentity (send c AUTH_OK (DBool true) s)
    | _ => set_handler c (HDone (Some TypeError)) s
    end
  else set_handler c (HDone (Some AssertionError)) s.

(** [hash(d)]: the tuple [(func, args, kwargs)] holds a dict and cannot be
    hashed; every other value that the pool looks into can. *)
Definition hashable (d : data) : bool :=
  match d with
  | DCall _ => false
  | _ => true
  end.

(** [self.__spawning.pop(identity)] (line 159): [dict.pop] hashes the key,
    which raises [TypeError] on an unhashable one, and without a default it
    raises [KeyError] on a miss; the keys of the table are strings. *)
Definition spawning_pop (identity : data) (s : WorkerPool) : exn + nat * WorkerPool :=
  if hashable identity then
    match identity with
    | DStr k =>
        match spawning s !! k with
        | Some process => inr (process, set_spawning (delete k (spawning s)) s)
        | None => inl KeyError
        end
    | _ => inl KeyError
    end
  else inl TypeError.

(** Lines 156-161 *)
Definition handler_identity (c : nat) (p : packet) (s : WorkerPool) : WorkerPool :=
  let '(packet_type, identity) := p in
  if decide (packet_type = IDENTITY) then
    match spawning_pop identity s with
    | inr (process, s) => handler_loop c process (tasks s) s
    | inl e => set_handler c (HDone (Some e)) s
    end
  else set_handler c (HDone (Some AssertionError)) s.

(** ** Spawning and supervision *)

(** The body of [WorkerPool.__create_process] (lines 56-71): a new [Popen]
    object, recorded under [identity] in [self.__spawning]; the bootstrap
    triple written to the child's standard input leaves no trace in the
    pool. *)
Definition create_process (identity : string) (s : WorkerPool) : nat * WorkerPool :=
  let process := length (proc s) in
  (process,
   set_spawning (<[identity := process]> (spawning s))
     (set_proc (proc s ++ [Popen_new]) s)).

(** [WorkerPool.__spawn_process] after [await self.__create_process]
    returned (lines 235-238): the process joins the fleet and a
    [__wait_process] task is started for it. *)
Definition spawn_process_created (process : nat) (s : WorkerPool) : WorkerPool :=
  set_waiters ({[process]} ∪ waiters s)
    (set_processes ({[process]} ∪ processes s) s).

(** Modelled from the spec: [threaded] of aiomisc.thread_pool, which
    decorates [__create_process] (line 54), is not in pool.py.  The spec
    lists the write of the bootstrap payload, which is in the body of
    [__create_process], among the suspension points of the core, and has
    every suspension point a potential reordering point: the call at line
    234 hands the body to a thread and suspends the caller, the body runs
    while the loop goes on with other coroutines, and the caller is resumed
    with what the body returned.  [threaded identity s] is the call: it
    yields the job that the caller awaits. *)
Definition threaded (identity : string) (s : WorkerPool) : nat * WorkerPool :=
  (length (threads s), set_threads (threads s ++ [TQueued identity]) s).

(** The thread of job [j] runs the body of [__create_process].  Nothing on
    the loop holds it back: not [self.__closing], which the body does not
    read, and not the cancellation of the task that awaits the job.  The
    body is one transition: the child learns the address of the pool from
    the payload, which is written (lines 64-69) after the entry of the
    pending table (line 60), so no connection of the child comes in
    between. *)
Definition thread_run (j : nat) (s : WorkerPool) : WorkerPool :=
  match threads s !! j with
  | Some (TQueued identity) =>
      let '(process, s) := create_process identity s in
      set_thread j (TDone process) s
  | _ => s
  end.

(** [WorkerPool.__on_exit] (lines 220-228): the done callback of a
    [__wait_process] task creates a [respawn()] task. *)
Definition on_exit (process : nat) (s : WorkerPool) : WorkerPool :=
  set_respawns (respawns s ++ [RInit process]) s.

(** One turn of the loop of the [__wait_process] task of [process]
    (lines 89-91); when the loop ends the task is done and [__on_exit]
    runs. *)
Definition wait_process (process : nat) (s : WorkerPool) : WorkerPool :=
  if decide (process ∈ waiters s) then
    let s := on_process poll process s in
    match process_returncode process s with
    | None => s
    | Some _ => on_exit process (set_waiters (waiters s ∖ {[process]}) s)
    end
  else s.

(** [respawn()] from its start to [await self.__create_process(identity)]
    (lines 222-234); [identity] is the value drawn by [uuid.uuid4().hex]. *)
Definition respawn_run (r : nat) (identity : string) (s : WorkerPool) : WorkerPool :=
  match respawns s !! r with
  | Some (RInit dead) =>
      if closing s then set_respawn r (RDone None) s
      else
        let '(job, s) := threaded identity s in
        set_respawn r (RCreate dead job) s
  | _ => s
  end.

(** [respawn()] from the return of [__create_process] to its end
    (lines 235-238 and 226). *)
Definition respawn_created (r : nat) (s : WorkerPool) : WorkerPool :=
  match respawns s !! r with
  | Some (RCreate dead job) =>
      match threads s !! job with
      | Some (TDone process) =>
          let s := spawn_process_created process s in
          if decide (dead ∈ processes s) then
            set_respawn r (RDone None) (set_processes (processes s ∖ {[dead]}) s)
          else set_respawn r (RDone (Some KeyError)) s
      | _ => s
      end
  | _ => s
  end.

(** [WorkerPool.__init__] (lines 73-87); [cookie] is the value drawn by
    [urandom(COOKIE_SIZE)]. *)
Definition __init__ (hasher : bytes -> bytes) (cookie : bytes)
    (workers : nat) (max_overflow : Z) : WorkerPool :=
  {| HASHER := hasher; cookie := cookie; workers := workers;
     maxsize := max_overflow; closing := false; futures := ∅;
     spawning := ∅; processes := ∅; tasks := []; fut := []; proc := [];
     handlers := []; submissions := []; waiters := ∅; respawns := [];
     closers := 0; ready := []; sent := []; closed := ∅; threads := [];
     starts := [] |}.

(** [WorkerPool.start_server] is called and suspends in
    [await asyncio.start_server] (lines 210-214). *)
Definition start_server_call (s : WorkerPool) : WorkerPool :=
  set_starts (starts s ++ [StListen]) s.

(** The loop of [start_server] (lines 216-218) from worker [n] on, up to
    [await self.__create_process(identity)] (line 234); no task is made for
    [start_server], and it does not read [self.__closing]. *)
Definition start_server_loop (i n : nat) (identity : string) (s : WorkerPool)
    : WorkerPool :=
  if n <? workers s then
    let '(job, s) := threaded identity s in
    set_start i (StCreate n job) s
  else set_start i StDone s.

(** [start_server] is resumed, by the listener or by the job it awaits;
    [identity] is the value drawn by [uuid.uuid4().hex] if another worker
    follows. *)
Definition start_server_resume (i : nat) (identity : string) (s : WorkerPool)
    : WorkerPool :=
  match starts s !! i with
  | Some StListen => start_server_loop i 0 identity s
  | Some (StCreate n job) =>
      match threads s !! job with
      | Some (TDone process) =>
          start_server_loop i (S n) identity (spawn_process_created process s)
      | _ => s
      end
  | _ => s
  end.

(** ** Submission (lines 262-279) *)

(** Lines 275-279: [return await result_future] inside the [try]. *)
Definition await_result (i : nat) (t : task) (process : data) (s : WorkerPool)
    : WorkerPool :=
  let cancelled s :=
    match kill_object process s with
    | Some s => set_submission i (SDone (Raised CancelledError)) s
    | None => set_submission i (SDone (Raised AttributeError)) s
    end in
  match fut s !! result_future t with
  | Some (Result v) => set_submission i (SDone (Returned v)) s
  | Some Cancelled | Some (Exception CancelledError) => cancelled s
  | Some (Exception e) => set_submission i (SDone (Raised e)) s
  | Some Pending | None => set_submission i (SAwaitResult t process) s
  end.

(** [WorkerPool.create_task] from the call to its first suspension
    (lines 266-273). *)
Definition create_task (cl : call) (s : WorkerPool) : WorkerPool :=
  let '(result_future, s) := create_future s in
  let '(process_future, s) := create_future s in
  let t := Task cl result_future process_future in
  if full s then set_submissions (submissions s ++ [SPut t]) s
  else set_submissions (submissions s ++ [SAwaitProcess t]) (put_nowait t s).

(** A submission suspended in [Queue.put] is woken up (line 269). *)
Definition create_task_put (i : nat) (s : WorkerPool) : WorkerPool :=
  match submissions s !! i with
  | Some (SPut t) =>
      if full s then s
      else set_submission i (SAwaitProcess t) (put_nowait t s)
  | _ => s
  end.

(** A submission is resumed by the future it awaits (lines 273-276). *)
Definition create_task_wake (i : nat) (s : WorkerPool) : WorkerPool :=
  match submissions s !! i with
  | Some (SAwaitProcess t) =>
      match fut s !! process_future t with
      | Some (Result process) => await_result i t process s
      | Some (Exception e) => set_submission i (SDone (Raised e)) s
      | Some Cancelled => set_submission i (SDone (Raised CancelledError)) s
      | Some Pending | None => s
      end
  | Some (SAwaitResult t process) => await_result i t process s
  | _ => s
  end.

(** The caller cancels the task that runs [create_task]: [Task.cancel()]
    cancels the future the task waits for if it is pending, and
    [CancelledError] is raised at the [await] where the coroutine is
    suspended; only line 276 is inside the [try] whose handler kills. *)
Definition create_task_cancel (i : nat) (s : WorkerPool) : WorkerPool :=
  match submissions s !! i with
  | Some (SPut t) => set_submission i (SDone (Raised CancelledError)) s
  | Some (SAwaitProcess t) =>
      set_submission i (SDone (Raised CancelledError))
        (cancel_future (process_future t) s)
  | Some (SAwaitResult t process) =>
      let s := cancel_future (result_future t) s in
      match kill_object process s with
      | Some s => set_submission i (SDone (Raised CancelledError)) s
      | None => set_submission i (SDone (Raised AttributeError)) s
      end
  | _ => s
  end.

(** ** Shutdown *)

(** [WorkerPool.__reject_futures] (lines 246-250) *)
Definition reject_futures (s : WorkerPool) : WorkerPool :=
  foldr (fun future s =>
           if future_done future s then s
           else default s
                  (resolve future (Exception (RuntimeError "Pool closed")) s))
        s (elements (futures s)).

Definition cancel_handler (h : handler) : handler :=
  match h with
  | HDone r => HDone r
  | _ => HDone (Some CancelledError)
  end.

Definition cancel_respawn (r : respawn) : respawn :=
  match r with
  | RDone x => RDone x
  | _ => RDone (Some CancelledError)
  end.

(** Modelled from the spec: [cancel_tasks] of aiomisc.utils is not in
    pool.py.  The spec calls it the task cancellation helper of the host
    runtime, and has [close()] use it to "cancel every registered background
    task and pending future".  Every task of the pool that is not done is
    cancelled ([CancelledError] ends a handler wherever it is suspended, and
    ends a [respawn()]); a cancelled [__wait_process] task is done, so its
    done callback [__on_exit] runs; every future of [self.__futures] that is
    not done is cancelled. *)
Definition cancel_tasks (s : WorkerPool) : WorkerPool :=
  let s := set_handlers (cancel_handler <$> handlers s) s in
  let s := set_respawns (cancel_respawn <$> respawns s) s in
  let s := foldr on_exit (set_waiters ∅ s) (elements (waiters s)) in
  foldr cancel_future s (elements (futures s)).

(** [WorkerPool.close] up to its [await] (lines 253-257). *)
Definition close (s : WorkerPool) : WorkerPool :=
  set_closers (S (closers s)) (cancel_tasks (set_closing true s)).

(** [WorkerPool.close] after its [await] (lines 259-260). *)
Definition close_resume (s : WorkerPool) : WorkerPool :=
  match closers s with
  | O => s
  | S n =>
      set_processes ∅
        (set_closers n
           (foldr (on_process _kill_process) s (elements (processes s))))
  end.

(** ** The event loop *)

(** The loop runs the oldest call handed to [call_soon]. An exception
    raised by the call ([InvalidStateError] from [set_exception],
    [KeyError] from [set.remove]) is logged by the loop and changes
    nothing. *)
Definition run_callback (s : WorkerPool) : WorkerPool :=
  match ready s with
  | [] => s
  | cb :: rest =>
      let s := set_ready rest s in
      match cb with
      | CbFuturesRemove f => set_futures (futures s ∖ {[f]}) s
      | CbSetException f e => default s (resolve f (Exception e) s)
      | CbWriterClose c => set_closed ({[c]} ∪ closed s) s
      end
  end.

(** What the loop does next. Events on a coroutine that is not suspended
    where the event applies change nothing. *)
Inductive event :=
| Accept                                (* a connection is accepted: line 202 *)
| Recv (c : nat) (p : packet)           (* receive() of handler c returns p *)
| RecvEOF (c : nat)                     (* receive() raises IncompleteReadError *)
| RecvFail (c : nat) (tag : nat)        (* send() or receive() raises another Exception *)
| ConnectionLost (c : nat)              (* the transport of c closes *)
| Get (c : nat)                         (* self.tasks.get() of handler c returns *)
| HandlerPoll (c : nat)                 (* handler c wakes up in __wait_process *)
| Submit (cl : call)                    (* a caller starts create_task *)
| Put (i : nat)                         (* self.tasks.put() of submission i resumes *)
| Wake (i : nat)                        (* the future awaited by submission i is done *)
| Cancel (i : nat)                      (* the caller cancels submission i *)
| WaiterPoll (p : nat)                  (* the __wait_process task of p wakes up *)
| Respawn (r : nat) (identity : string) (* respawn task r starts *)
| Created (r : nat)                     (* __create_process of respawn r returned *)
| Thread (j : nat)                      (* the thread of job j runs __create_process *)
| Start                                 (* a caller starts start_server *)
| StartResume (i : nat) (identity : string) (* start_server call i is resumed *)
| Close                                 (* a caller starts close() *)
| CloseResume                           (* close() resumes after cancel_tasks *)
| CallSoon                              (* the loop runs a call_soon callback *)
| Exit (p : nat) (code : Z).            (* child p terminates by itself *)

Definition handshaking (h : handler) : bool :=
  match h with
  | HRecvSalt | HRecvDigest _ | HRecvIdentity => true
  | _ => false
  end.

Definition react (e : event) (s : WorkerPool) : WorkerPool :=
  match e with
  | Accept => set_handlers (handlers s ++ [HRecvSalt]) s
  | Recv c p =>
      match handlers s !! c with
      | Some HRecvSalt => handler_salt c p s
      | Some (HRecvDigest salt) => handler_digest c salt p s
      | Some HRecvIdentity => handler_identity c p s
      | Some (HStep process t) => step_response c process t p s
      | _ => s
      end
  | RecvEOF c =>
      match handlers s !! c with
      | Some (HStep process t) => handler_wait_process c process t s
      | Some h =>
          if handshaking h then set_handler c (HDone (Some IncompleteReadError)) s
          else s
      | None => s
      end
  | RecvFail c tag =>
      match handlers s !! c with
      | Some (HStep process t) => handler_except c t (OtherError tag) s
      | Some h =>
          if handshaking h then set_handler c (HDone (Some (OtherError tag))) s
          else s
      | None => s
      end
  | ConnectionLost c => set_closed ({[c]} ∪ closed s) s
  | Get c =>
      match handlers s !! c, tasks s with
      | Some (HGet process), _ :: _ => handler_loop c process (tasks s) s
      | _, _ => s
      end
  | HandlerPoll c =>
      match handlers s !! c with
      | Some (HWaitProcess process t) => handler_wait_process c process t s
      | _ => s
      end
  | Submit cl => create_task cl s
  | Put i => create_task_put i s
  | Wake i => create_task_wake i s
  | Cancel i => create_task_cancel i s
  | WaiterPoll p => wait_process p s
  | Respawn r identity => respawn_run r identity s
  | Created r => respawn_created r s
  | Thread j => thread_run j s
  | Start => start_server_call s
  | StartResume i identity => start_server_resume i identity s
  | Close => close s
  | CloseResume => close_resume s
  | CallSoon => run_callback s
  | Exit p code => on_process (os_exit code) p s
  end.

(** A run of the loop: the events in the order they happen. *)
Definition run (es : list event) (s : WorkerPool) : WorkerPool :=
  foldl (fun s e => react e s) s es.

(** The events of a [start_server()] call that goes from its call to its
    return with nothing else happening in between: [i] is the call, [j] the
    first job it hands to a thread and [uuid4 n] the identity drawn for
    worker [n]. *)
Definition start_server_events (uuid4 : nat -> string) (w i j : nat)
    : list event :=
  Start :: StartResume i (uuid4 0)
    :: flat_map (fun n => [Thread (j + n); StartResume i (uuid4 (S n))])
         (seq 0 w).

(** [WorkerPool.start_server] (lines 210-218), run in that way. *)
Definition start_server (uuid4 : nat -> string) (s : WorkerPool) : WorkerPool :=
  run (start_server_events uuid4 (workers s) (length (starts s))
         (length (threads s))) s.

(** ** Notions used in the statements *)

(** A future store [f'] keeps what is resolved in [f]: every future that is
    done in [f] is in the same state in [f']. *)
Definition stable (f f' : list future) : Prop :=
  forall i st, f !! i = Some st -> done st = true -> f' !! i = Some st.

(** The task a handler is working on, between the REQUEST and the
    resolution of the result future. *)
Definition handler_task (h : handler) : option task :=
  match h with
  | HStep _ t | HWaitProcess _ t => Some t
  | _ => None
  end.

(** A handler past the handshake that has not ended. *)
Definition serving (h : handler) : bool :=
  match h with
  | HGet _ | HStep _ _ | HWaitProcess _ _ => true
  | _ => false
  end.

Definition in_flight (s : WorkerPool) : list task :=
  omap handler_task (handlers s).

Definition unresolved (s : WorkerPool) (t : task) : bool :=
  negb (future_done (result_future t) s).

(** The tasks with an unresolved result future that are in the queue or in
    flight. *)
Definition outstanding (s : WorkerPool) : nat :=
  length (List.filter (unresolved s) (tasks s ++ in_flight s)).

(** The state of the pool after the handler took [t] off the queue, found
    its process future pending and resolved it to its child [p]
    (line 176); [q] is what is left in the queue. *)
Definition picked_up (p : nat) (t : task) (q : list task) (s : WorkerPool)
    : WorkerPool :=
  call_soon (CbFuturesRemove (process_future t))
    (set_fut (<[process_future t := Result (DPopen p)]> (fut s))
       (set_tasks q s)).

(** Every task that a handler is working on has its process future
    resolved. *)
Definition accepted_resolved (s : WorkerPool) : Prop :=
  forall c h t,
    handlers s !! c = Some h -> handler_task h = Some t ->
    future_done (process_future t) s = true.

(** The queue respects its bound, when it has one. *)
Definition queue_ok (s : WorkerPool) : Prop :=
  (0 < maxsize s)%Z -> (Z.of_nat (length (tasks s)) <= maxsize s)%Z.

(** [create_task] is suspended in [self.tasks.put]. *)
Definition in_put (x : submission) : bool :=
  match x with
  | SPut _ => true
  | _ => false
  end.







(** The packets written to connection [c], oldest first. *)
Definition sent_on (c : nat) (s : WorkerPool) : list packet :=
  snd <$> List.filter (fun x => fst x =? c) (sent s).

Definition is_request (p : packet) : bool :=
  match fst p with
  | REQUEST => true
  | _ => false
  end.


(** ** A pool to run

    [HASHER], the cookie and the identities are parameters of everything
    above; the runs below fix them. [example_hasher] stands for the hash
    function only in that it is a function of the bytes it is fed. *)
Definition example_hasher (b : bytes) : bytes := reverse b.

Definition example_cookie : bytes := [x5a; xa5; x3c].

Definition example_uuid4 (n : nat) : string :=
  match n with
  | 0 => "0f8fad5bd9cb469fa16570867728950e"
  | 1 => "7c9e6679742540de944be07fc1f90ae7"
  | _ => "e02fa0e4f99f4d0a9b1c3c2d8a7b6c5d"
  end.

Definition example_pool (workers : nat) (max_overflow : Z) : WorkerPool :=
  start_server example_uuid4
    (__init__ example_hasher example_cookie workers max_overflow).

(** Child 0 of the pool connects and goes through the handshake. *)
Definition example_handshake : list event :=
  [ Accept;
    Recv 0 (AUTH_SALT, DBytes [x07]);
    Recv 0 (AUTH_DIGEST, DBytes [x3c; xa5; x5a; x07]);
    Recv 0 (IDENTITY, DStr "0f8fad5bd9cb469fa16570867728950e") ].

Definition example_call : call :=
  {| func := "add"; args := [2%Z; 3%Z]; kwargs := [] |}.

(** * What a transition leaves alone *)

Lemma stable_refl f : stable f f.
Proof. by intros ?. Qed.

Lemma stable_trans f g h : stable f g -> stable g h -> stable f h.
Proof. unfold stable. eauto. Qed.

Lemma stable_insert f i v : f !! i = Some Pending -> stable f (<[i := v]> f).
Proof.
  intros Hi j st Hj Hd. destruct (decide (i = j)) as [->|].
  - rewrite Hi in Hj. by simplify_eq.
  - by rewrite list_lookup_insert_ne.
Qed.

Lemma stable_app f g : stable f (f ++ g).
Proof. intros i st Hi _. by apply lookup_app_l_Some. Qed.

(** [loop_frame c s s']: [s'] differs from [s] by the work of the handler
    of connection [c] inside its loop, or by less. *)
Record loop_frame (c : nat) (s s' : WorkerPool) : Prop := {
  lf_HASHER : HASHER s' = HASHER s;
  lf_cookie : cookie s' = cookie s;
  lf_workers : workers s' = workers s;
  lf_maxsize : maxsize s' = maxsize s;
  lf_closing : closing s' = closing s;
  lf_futures : futures s' = futures s;
  lf_spawning : spawning s' = spawning s;
  lf_processes : processes s' = processes s;
  lf_proc : proc s' = proc s;
  lf_submissions : submissions s' = submissions s;
  lf_waiters : waiters s' = waiters s;
  lf_respawns : respawns s' = respawns s;
  lf_closers : closers s' = closers s;
  lf_closed : closed s' = closed s;
  lf_threads : threads s' = threads s;
  lf_starts : starts s' = starts s;
  lf_tasks : length (tasks s') <= length (tasks s);
  lf_fut : stable (fut s) (fut s') /\ length (fut s') = length (fut s);
  lf_handlers :
    length (handlers s') = length (handlers s) /\
    forall c', c' <> c -> handlers s' !! c' = handlers s !! c';
  lf_ready :
    exists l, ready s' = ready s ++ l /\
      Forall (fun cb => forall c', cb = CbWriterClose c' -> c' = c) l;
  lf_sent :
    exists l, sent s' = sent s ++ l /\ Forall (fun x => x.1 = c) l
}.

Lemma loop_frame_refl c s : loop_frame c s s.
Proof.
  constructor; try done; try (exists []; by rewrite app_nil_r).
  split; [apply stable_refl|done].
Qed.

Lemma loop_frame_trans c s1 s2 s3 :
  loop_frame c s1 s2 -> loop_frame c s2 s3 -> loop_frame c s1 s3.
Proof.
  intros [] []. constructor; try congruence.
  - lia.
  - destruct lf_fut0, lf_fut1. split; [eauto using stable_trans | congruence].
  - destruct lf_handlers0 as [L0 E0], lf_handlers1 as [L1 E1].
    split; [congruence|]. intros c' Hc. by rewrite E1, E0.
  - destruct lf_ready0 as (l0 & E0 & ?), lf_ready1 as (l1 & E1 & ?).
    exists (l0 ++ l1). rewrite E1, E0, app_assoc. by split; [|apply Forall_app].
  - destruct lf_sent0 as (l0 & E0 & ?), lf_sent1 as (l1 & E1 & ?).
    exists (l0 ++ l1). rewrite E1, E0, app_assoc. by split; [|apply Forall_app].
Qed.

Ltac frame_solve :=
  constructor; simpl; rewrite ?length_insert; try done; try lia;
  try (split; [first [apply stable_refl | by apply stable_insert]
              |by rewrite ?length_insert]);
  try (split; [by rewrite ?length_insert
              |by intros; rewrite ?list_lookup_insert_ne]);
  try (exists []; by rewrite app_nil_r);
  try (eexists; split; [first [reflexivity | by rewrite <- app_assoc]|];
       repeat constructor; simpl; congruence).

Lemma resolve_Some f v s s' :
  resolve f v s = Some s' ->
  fut s !! f = Some Pending /\
  s' = set_ready (ready s ++ [CbFuturesRemove f])
         (set_fut (<[f := v]> (fut s)) s).
Proof. unfold resolve, call_soon. intros; repeat case_match; by simplify_eq. Qed.

Lemma resolve_None f v s :
  resolve f v s = None -> fut s !! f <> Some Pending.
Proof. unfold resolve. intros; repeat case_match; by simplify_eq. Qed.

Lemma resolve_pending f v s :
  fut s !! f = Some Pending ->
  resolve f v s =
    Some (call_soon (CbFuturesRemove f) (set_fut (<[f := v]> (fut s)) s)).
Proof. unfold resolve. by intros ->. Qed.

Lemma resolve_frame c f v s s' : resolve f v s = Some s' -> loop_frame c s s'.
Proof. intros [? ->]%resolve_Some. frame_solve. Qed.

Lemma handler_except_frame c t e s : loop_frame c s (handler_except c t e s).
Proof.
  unfold handler_except, call_soon, set_handler.
  repeat case_match; frame_solve.
Qed.

Lemma handler_loop_frame c p q :
  forall s, tasks s = q -> loop_frame c s (handler_loop c p q s).
Proof.
  induction q as [|t q IH]; intros s Hq; simpl.
  { unfold set_handler. frame_solve. }
  assert (loop_frame c s (set_tasks q s)) as H0.
  { frame_solve. rewrite Hq. simpl. lia. }
  eapply loop_frame_trans; [exact H0|]. clear H0.
  destruct (future_done _ _); [by apply IH|].
  destruct (resolve _ _ _) as [s1|] eqn:Hr; [|apply handler_except_frame].
  eapply loop_frame_trans; [by eapply resolve_frame|].
  apply resolve_Some in Hr as [_ ->].
  destruct (future_done _ _); [by apply IH|].
  unfold set_handler, send. frame_solve.
Qed.

Lemma cancel_future_cases f s :
  cancel_future f s = s \/
  (fut s !! f = Some Pending /\
   cancel_future f s =
     set_ready (ready s ++ [CbFuturesRemove f])
       (set_fut (<[f := Cancelled]> (fut s)) s)).
Proof.
  unfold cancel_future. destruct (resolve _ _ _) eqn:E; [|by left].
  apply resolve_Some in E as [? ->]. by right.
Qed.

Lemma cancel_futures_eq l : forall s, exists f' r',
  foldr cancel_future s l = set_fut f' (set_ready (ready s ++ r') s) /\
  stable (fut s) f' /\ length f' = length (fut s) /\
  Forall (fun cb => exists f, cb = CbFuturesRemove f) r'.
Proof.
  induction l as [|f l IH]; intros s; simpl.
  - exists (fut s), []. rewrite app_nil_r. split; [by destruct s|].
    split_and!; [apply stable_refl|done|done].
  - destruct (IH s) as (f' & r' & -> & Hst & Hlen & Hr).
    destruct (cancel_future_cases f (set_fut f' (set_ready (ready s ++ r') s)))
      as [->|[Hp ->]]; [by eauto 10|]. simpl in *.
    exists (<[f := Cancelled]> f'), (r' ++ [CbFuturesRemove f]).
    rewrite app_assoc. split; [done|]. split_and!.
    + eapply stable_trans; [done|]. by apply stable_insert.
    + by rewrite length_insert.
    + apply Forall_app. split; [done|]. repeat constructor. eauto.
Qed.

Lemma on_exits_eq l s :
  foldr on_exit s l = set_respawns (respawns s ++ (RInit <$> reverse l)) s.
Proof.
  revert s. induction l as [|p l IH]; intros s; simpl.
  - rewrite app_nil_r. by destruct s.
  - rewrite IH. unfold on_exit. simpl.
    by rewrite reverse_cons, fmap_app, app_assoc.
Qed.

Lemma cancel_tasks_eq s : exists f' r',
  cancel_tasks s =
    set_handlers (cancel_handler <$> handlers s)
      (set_respawns
         ((cancel_respawn <$> respawns s)
            ++ (RInit <$> reverse (elements (waiters s))))
         (set_waiters ∅ (set_fut f' (set_ready (ready s ++ r') s)))) /\
  stable (fut s) f' /\ length f' = length (fut s) /\
  Forall (fun cb => exists f, cb = CbFuturesRemove f) r'.
Proof.
  unfold cancel_tasks. rewrite on_exits_eq. simpl.
  match goal with |- context [foldr cancel_future ?s0 ?l] =>
    destruct (cancel_futures_eq l s0) as (f' & r' & -> & ? & ? & ?) end.
  simpl in *. by exists f', r'.
Qed.

Lemma kills_eq f l s :
  foldr (on_process f) s l = set_proc (foldr (alter f) (proc s) l) s.
Proof.
  induction l as [|p l IH]; simpl; [by destruct s|].
  by rewrite IH.
Qed.

Lemma kills_length f l (ps : list Popen) :
  length (foldr (alter f) ps l) = length ps.
Proof. induction l; simpl; [done|]. by rewrite length_alter. Qed.

Lemma handler_loop_nil c p s :
  handler_loop c p [] s = set_handler c (HGet p) (set_tasks [] s).
Proof. done. Qed.

Lemma handler_loop_cons c p t q s :
  handler_loop c p (t :: q) s =
    let s := set_tasks q s in
    if future_done (process_future t) s then handler_loop c p q s
    else
      match resolve (process_future t) (Result (DPopen p)) s with
      | None => handler_except c t InvalidStateError s
      | Some s =>
          if future_done (result_future t) s then handler_loop c p q s
          else set_handler c (HStep p t)
                 (send c REQUEST (DCall (task_call t)) s)
      end.
Proof. done. Qed.

Lemma future_done_stable f s s' :
  stable (fut s) (fut s') -> future_done f s = true -> future_done f s' = true.
Proof.
  unfold future_done. intros Hst. destruct (fut s !! f) as [st|] eqn:E; [|done].
  intros Hd. by rewrite (Hst _ _ E Hd).
Qed.

Lemma handler_except_handler c t e s h :
  handlers (handler_except c t e s) !! c = Some h -> h = HDone (Some e).
Proof.
  unfold handler_except, set_handler, call_soon.
  repeat case_match; simpl;
    intros [(_ & ? & _)|[? _]]%list_lookup_insert_Some; done.
Qed.

Lemma handler_loop_holds c p q : forall s h t,
  handlers (handler_loop c p q s) !! c = Some h -> handler_task h = Some t ->
  future_done (process_future t) (handler_loop c p q s) = true.
Proof.
  induction q as [|t0 q IH]; intros s h t.
  - rewrite handler_loop_nil. unfold set_handler. simpl.
    intros [(_ & ? & _)|[? _]]%list_lookup_insert_Some; by simplify_eq.
  - rewrite handler_loop_cons. simpl.
    destruct (future_done _ _); [apply IH|].
    destruct (resolve _ _ _) as [s1|] eqn:Hr.
    + apply resolve_Some in Hr as [Hp ->].
      destruct (future_done _ _); [apply IH|].
      unfold set_handler, send. simpl.
      intros [(_ & ? & _)|[? _]]%list_lookup_insert_Some; [|done]. simplify_eq/=.
      intros; simplify_eq. unfold future_done. simpl.
      rewrite list_lookup_insert_eq; [done|]. by eapply lookup_lt_Some.
    + by intros ->%handler_except_handler.
Qed.

Lemma cancel_future_fut g s f :
  fut (cancel_future g s) !! f =
    if decide (f = g)
    then match fut s !! g with
         | Some Pending => Some Cancelled
         | x => x
         end
    else fut s !! f.
Proof.
  unfold cancel_future, resolve, call_soon.
  destruct (fut s !! g) as [[]|] eqn:E; simpl; case_decide; subst; try done.
  - apply list_lookup_insert_eq. by eapply lookup_lt_Some.
  - by apply list_lookup_insert_ne.
Qed.

Lemma cancel_futures_pending l s f :
  fut s !! f = Some Pending ->
  fut (foldr cancel_future s l) !! f
  = Some (if decide (f ∈ l) then Cancelled else Pending).
Proof.
  intros Hp. induction l as [|g l IH]; simpl.
  { destruct (decide (f ∈ [])) as [H|_]; [by apply elem_of_nil in H|done]. }
  rewrite cancel_future_fut.
  destruct (decide (f = g)) as [->|Hne].
  - rewrite IH. destruct (decide (g ∈ g :: l)) as [_|H]; [|exfalso; apply H; left].
    by case_decide.
  - rewrite IH. destruct (decide (f ∈ l)), (decide (f ∈ g :: l)) as [H|H];
      try done.
    + exfalso. apply H. by right.
    + exfalso. by apply elem_of_cons in H as [?|?].
Qed.

(** [close()] cancels every future that is registered and pending. *)
Lemma close_cancels_registered s f :
  f ∈ futures s -> fut s !! f = Some Pending ->
  fut (react Close s) !! f = Some Cancelled.
Proof.
  intros Hin Hp. change (react Close s) with (close s).
  unfold close, cancel_tasks. rewrite on_exits_eq.
  match goal with |- fut (set_closers _ (foldr cancel_future ?x ?l)) !! _ = _ =>
    change (fut (foldr cancel_future x l) !! f = Some Cancelled);
    rewrite (cancel_futures_pending l x f Hp)
  end.
  case_decide as H; [done|]. exfalso. by apply H, elem_of_elements.
Qed.






(** ** The registry of futures *)











(** From here on the recursive parts of a transition are used through the
    lemmas above only. *)
#[local] Opaque handler_loop handler_except cancel_tasks resolve cancel_future.

Ltac unfold_react :=
  unfold handler_salt, handler_digest, handler_identity, spawning_pop,
    step_response, handler_wait_process, create_task,
    create_task_put, create_task_wake, create_task_cancel, await_result,
    kill_object, wait_process, respawn_run, respawn_created, thread_run,
    start_server_call, start_server_resume, start_server_loop, threaded,
    spawn_process_created, create_process, on_exit, close, close_resume,
    run_callback, set_handler, send, call_soon,
    set_submission, set_respawn, set_thread, set_start, put_nowait,
    create_future, process_returncode in *.

Ltac inv_resolve :=
  repeat match goal with
  | H : resolve _ _ _ = Some _ |- _ => apply resolve_Some in H as [? ->]
  end.

(** Replace what the recursive parts of a transition compute by a state
    known through its frame. *)
Ltac abstract_frames :=
  repeat match goal with
  | |- context [handler_loop ?c ?p ?q ?s] =>
      let H := fresh "Hloop" in
      assert (loop_frame c s (handler_loop c p q s)) as H
        by (apply handler_loop_frame; simpl; done);
      destruct H; generalize dependent (handler_loop c p q s); intros
  | |- context [handler_except ?c ?t ?e ?s] =>
      let H := fresh "Hexc" in
      pose proof (handler_except_frame c t e s) as H;
      destruct H; generalize dependent (handler_except c t e s); intros
  | |- context [cancel_tasks ?s] =>
      destruct (cancel_tasks_eq s) as (? & ? & -> & ? & ? & ?)
  | |- context [cancel_future ?f ?s] =>
      destruct (cancel_future_cases f s) as [->|[? ->]]
  | |- context [resolve ?f ?v ?s] =>
      let E := fresh "Hres" in
      destruct (resolve f v s) eqn:E; inv_resolve
  | |- context [foldr (on_process ?f) ?s ?l] => rewrite (kills_eq f l s)
  end.

Ltac react_cases :=
  simpl; unfold_react; simpl;
  repeat (case_match; simplify_eq/=); inv_resolve; abstract_frames;
  simpl in *.

(** ** What one transition can change *)

Lemma react_config e s :
  HASHER (react e s) = HASHER s /\ cookie (react e s) = cookie s /\
  workers (react e s) = workers s /\ maxsize (react e s) = maxsize s.
Proof. destruct e; react_cases; split_and!; congruence. Qed.

Lemma react_spawning e s :
  spawning (react e s) = spawning s \/
  (exists c k p, e = Recv c (IDENTITY, DStr k) /\
     handlers s !! c = Some HRecvIdentity /\ spawning s !! k = Some p /\
     spawning (react e s) = delete k (spawning s)) \/
  (exists j k, e = Thread j /\ threads s !! j = Some (TQueued k) /\
     spawning (react e s) = <[k := length (proc s)]> (spawning s)).
Proof.
  destruct e; react_cases; try (left; congruence).
  - right; left. eauto 10.
  - right; right. eauto 10.
Qed.

Lemma react_proc e s :
  length (proc (react e s)) = length (proc s) \/
  (exists j k, e = Thread j /\ threads s !! j = Some (TQueued k) /\
     proc (react e s) = proc s ++ [Popen_new]).
Proof.
  destruct e; react_cases; rewrite ?length_alter, ?kills_length;
    try (left; congruence).
  right. eauto 10.
Qed.

Lemma react_threads e s :
  threads (react e s) = threads s \/
  (exists j k p, e = Thread j /\ threads s !! j = Some (TQueued k) /\
     threads (react e s) = <[j := TDone p]> (threads s)) \/
  (exists k, ((exists r, e = Respawn r k) \/ (exists i, e = StartResume i k)) /\
     threads (react e s) = threads s ++ [TQueued k]).
Proof.
  destruct e; react_cases; try (left; congruence).
  all: try (right; left; by eauto 10).
  all: right; right; eauto 10.
Qed.

Lemma react_closing e s :
  closing (react e s) = closing s \/ (e = Close /\ closing (react e s) = true).
Proof. destruct e; react_cases; try (left; congruence). by right. Qed.


Lemma react_fut_stable e s : stable (fut s) (fut (react e s)).
Proof.
  destruct e; react_cases;
    repeat match goal with H : _ /\ _ |- _ => destruct H end;
    try done; try apply stable_refl; try (by apply stable_insert);
    try (rewrite <- app_assoc; apply stable_app);
    try (eapply stable_trans; [|eassumption]; simpl;
         try apply stable_refl; by apply stable_insert).
Qed.

Lemma react_tasks e s :
  length (tasks (react e s)) <= length (tasks s) \/
  (full s = false /\ length (tasks (react e s)) = S (length (tasks s))).
Proof.
  destruct e; react_cases; unfold full in *; simpl in *;
    try match goal with H : tasks s = _ |- _ => rewrite ?H in *; simpl in * end;
    rewrite ?length_app; simpl; try (left; lia);
    try (right; split; [done|lia]).
Qed.

Lemma react_handler_done e s c r :
  handlers s !! c = Some (HDone r) ->
  handlers (react e s) !! c = Some (HDone r).
Proof.
  intros Hc. destruct e; react_cases; try done;
    try (by apply lookup_app_l_Some);
    try (rewrite list_lookup_fmap, Hc; done);
    repeat match goal with H : _ /\ _ |- _ => destruct H end;
    try match goal with
    | H : handlers s !! ?c' = Some _ |- _ =>
        destruct (decide (c = c')) as [->|]; [congruence|]
    end;
    rewrite ?list_lookup_insert_ne by done; try done;
    try (by match goal with H : forall c', _ -> _ = _ |- _ => rewrite H by done end).
Qed.

Lemma sent_on_app c s l :
  snd <$> List.filter (fun x => fst x =? c) (sent s ++ l) =
  sent_on c s ++ (snd <$> List.filter (fun x => fst x =? c) l).
Proof. unfold sent_on. by rewrite List.filter_app, fmap_app. Qed.

Lemma filter_other c c' (l : list (nat * packet)) :
  c <> c' -> Forall (fun x => x.1 = c') l ->
  List.filter (fun x => fst x =? c) l = [].
Proof.
  intros Hne. induction 1 as [|x l Hx _ IH]; simpl; [done|].
  destruct (Nat.eqb_spec x.1 c); [congruence|done].
Qed.

(** A handler that has ended writes nothing more to its connection. *)
Lemma react_sent_done e s c r :
  handlers s !! c = Some (HDone r) -> sent_on c (react e s) = sent_on c s.
Proof.
  intros Hc. destruct e; react_cases; try done;
    repeat match goal with H : _ /\ _ |- _ => destruct H end;
    repeat match goal with H : exists _, _ |- _ => destruct H as (? & ? & ?) end;
    try match goal with
    | H : handlers s !! ?c' = Some _ |- _ =>
        destruct (decide (c = c')) as [->|]; [congruence|]
    end;
    unfold sent_on in *; simpl;
    repeat match goal with H : sent ?w = _ |- context [sent ?w] => rewrite H end;
    simpl; rewrite ?List.filter_app, ?fmap_app; simpl;
    try match goal with
    | H : Forall (fun x => x.1 = ?c') ?l |- _ =>
        rewrite (filter_other c c' l) by done
    end;
    repeat match goal with
    | |- context [?a =? ?b] => destruct (Nat.eqb_spec a b); [congruence|]
    end; simpl; rewrite ?app_nil_r; try done.
Qed.

(** The writer of a connection is closed by the transport or by a
    [writer.close] that the handler handed to the loop. *)
Lemma react_closed e s c :
  c ∈ closed (react e s) ->
  c ∈ closed s \/ e = ConnectionLost c \/
  (e = CallSoon /\ head (ready s) = Some (CbWriterClose c)).
Proof.
  destruct e; react_cases; try (left; congruence);
    rewrite elem_of_union, elem_of_singleton; naive_solver.
Qed.

Lemma react_ready_done e s c r :
  handlers s !! c = Some (HDone r) ->
  CbWriterClose c ∈ ready (react e s) -> CbWriterClose c ∈ ready s.
Proof.
  intros Hc. destruct e; react_cases; try done; intros;
    repeat match goal with H : _ /\ _ |- _ => destruct H end;
    repeat match goal with H : exists _, _ |- _ => destruct H as (? & ? & ?) end;
    try match goal with
    | H : handlers s !! ?c' = Some _ |- _ =>
        destruct (decide (c = c')) as [->|]; [congruence|]
    end;
    match goal with H : CbWriterClose c ∈ _ |- _ => revert H end;
    repeat match goal with H : ready ?w = _ |- context [ready ?w] => rewrite H end;
    simpl; rewrite ?elem_of_app, ?elem_of_cons, ?list_elem_of_singleton;
    intros Hin; destruct_or?; simplify_eq; try done;
    try (by apply elem_of_nil in Hin);
    try (by apply list_elem_of_further);
    try (match goal with
         | HF : Forall _ ?l, Hin : _ ∈ ?l |- _ =>
             rewrite Forall_forall in HF; specialize (HF _ Hin); simpl in HF
         end;
         first [ by destruct HF | by exfalso; eauto ]);
    try (by right; set_solver);
    try (match goal with
         | HF : Forall _ ?l, Hin : _ ∈ ?l |- _ =>
             rewrite Forall_forall in HF; by destruct (HF _ Hin)
         end).
Qed.

(** ** Runs *)


Lemma run_cons e es s : run (e :: es) s = run es (react e s).
Proof. done. Qed.


Lemma run_config es s :
  HASHER (run es s) = HASHER s /\ cookie (run es s) = cookie s /\
  workers (run es s) = workers s /\ maxsize (run es s) = maxsize s.
Proof.
  revert s. induction es as [|e es IH]; intros s; simpl; [done|].
  destruct (IH (react e s)) as (-> & -> & -> & ->). apply react_config.
Qed.

Lemma run_fut_stable es s : stable (fut s) (fut (run es s)).
Proof.
  revert s. induction es as [|e es IH]; intros s; simpl; [apply stable_refl|].
  eapply stable_trans; [apply react_fut_stable|apply IH].
Qed.

Lemma run_handler_done es s c r :
  handlers s !! c = Some (HDone r) -> handlers (run es s) !! c = Some (HDone r).
Proof.
  revert s. induction es as [|e es IH]; intros s Hc; simpl; [done|].
  by apply IH, react_handler_done.
Qed.

Lemma run_sent_done es s c r :
  handlers s !! c = Some (HDone r) -> sent_on c (run es s) = sent_on c s.
Proof.
  revert s. induction es as [|e es IH]; intros s Hc; simpl; [done|].
  rewrite IH by by apply react_handler_done. by eapply react_sent_done.
Qed.

Lemma run_closing es s : closing s = true -> closing (run es s) = true.
Proof.
  revert s. induction es as [|e es IH]; intros s Hc; simpl; [done|].
  apply IH. destruct (react_closing e s) as [->|[_ ->]]; done.
Qed.

Ltac abstract_loops :=
  repeat match goal with
  | |- context [handler_loop ?c ?p ?q ?s] =>
      let H := fresh "Hloop" in
      let H' := fresh "Hholds" in
      assert (loop_frame c s (handler_loop c p q s)) as H
        by (apply handler_loop_frame; simpl; done);
      pose proof (handler_loop_holds c p q s) as H';
      destruct H; generalize dependent (handler_loop c p q s); intros
  | |- context [handler_except ?c ?t ?e ?s] =>
      let H := fresh "Hexc" in
      let H' := fresh "Hholds" in
      pose proof (handler_except_frame c t e s) as H;
      pose proof (handler_except_handler c t e s) as H';
      destruct H; generalize dependent (handler_except c t e s); intros
  end.

Lemma react_handler_at e s c h :
  handlers (react e s) !! c = Some h ->
  handlers s !! c = Some h \/ handler_task h = None \/
  (exists t, handler_task h = Some t /\
     future_done (process_future t) (react e s) = true) \/
  (exists h0, handlers s !! c = Some h0 /\ handler_task h0 = handler_task h).
Proof.
  destruct e; simpl; unfold_react; simpl;
  repeat (case_match; simplify_eq/=); inv_resolve; abstract_loops; abstract_frames; simpl in *;
  try (by left); intros;
  repeat match goal with H : _ /\ _ |- _ => destruct H end;
  try match goal with
    | H : handlers s !! ?c' = Some _ |- _ =>
        destruct (decide (c = c')) as [->|];
        [|left;
          repeat match goal with
          | H : <[_ := _]> _ !! _ = Some _ |- _ => rewrite list_lookup_insert_ne in H by done
          | H : forall c', c' <> _ -> _ = _, H' : handlers _ !! _ = _ |- _ => rewrite H in H' by done
          end; done]
    end;
  try match goal with
    | H : <[_ := _]> _ !! _ = Some _ |- _ =>
        apply list_lookup_insert_Some in H as [(_ & <- & _)|[? _]]; [|done];
        first [ by right; left | by right; right; right; eauto ]
    end;
  try match goal with
    | Hh : forall h, handlers ?w !! ?c = Some h -> h = _,
      H0 : handlers ?w !! ?c = Some _ |- _ =>
        apply Hh in H0 as ->; by right; left
    end;
  try (destruct (handler_task h) as [t'|] eqn:Ht; [|by right; left];
       right; right; left; exists t'; split; [done|]; by eauto).
  - match goal with H : (_ ++ _) !! _ = _ |- _ =>
      apply lookup_app_Some in H as [?|[_ H]]; [by left|];
      apply list_lookup_singleton_Some in H as [_ <-] end.
    by right; left.
  - match goal with H : (_ <$> _) !! _ = _ |- _ =>
      rewrite list_lookup_fmap in H;
      destruct (handlers s !! c) as [h0|]; [|done]; simplify_eq/= end.
    right; left. by destruct h0.
Qed.

Lemma react_accepted_resolved e s :
  accepted_resolved s -> accepted_resolved (react e s).
Proof.
  intros Inv c h t Hh Ht.
  destruct (react_handler_at e s c h Hh)
    as [H|[H|[(t' & H & ?)|(h0 & H & H')]]].
  - eapply future_done_stable; [apply react_fut_stable|]. eauto.
  - congruence.
  - congruence.
  - eapply future_done_stable; [apply react_fut_stable|].
    eapply Inv; [done|]. congruence.
Qed.

(** ** The queue and the pool after [start_server] *)

(** What [start_server] and the threads of [__create_process] leave alone. *)
Lemma react_start_frame e s :
  e = Start \/ (exists i k, e = StartResume i k) \/ (exists j, e = Thread j) ->
  maxsize (react e s) = maxsize s /\ workers (react e s) = workers s /\
  closing (react e s) = closing s /\ tasks (react e s) = tasks s /\
  fut (react e s) = fut s /\ handlers (react e s) = handlers s /\
  submissions (react e s) = submissions s /\ sent (react e s) = sent s.
Proof. intros [->|[(i & k & ->)|(j & ->)]]; react_cases; done. Qed.

Lemma run_start_frame es s :
  Forall (fun e => e = Start \/ (exists i k, e = StartResume i k) \/
                   (exists j, e = Thread j)) es ->
  maxsize (run es s) = maxsize s /\ workers (run es s) = workers s /\
  closing (run es s) = closing s /\ tasks (run es s) = tasks s /\
  fut (run es s) = fut s /\ handlers (run es s) = handlers s /\
  submissions (run es s) = submissions s /\ sent (run es s) = sent s.
Proof.
  intros Hes. revert s. induction Hes as [|e es He _ IH]; intros s; [done|].
  rewrite run_cons.
  destruct (IH (react e s)) as (-> & -> & -> & -> & -> & -> & -> & ->).
  by apply react_start_frame.
Qed.

Lemma start_server_events_start uuid4 w i j :
  Forall (fun e => e = Start \/ (exists i k, e = StartResume i k) \/
                   (exists j, e = Thread j))
    (start_server_events uuid4 w i j).
Proof.
  unfold start_server_events. repeat (constructor; [by eauto|]).
  induction (seq 0 w) as [|n l IH]; simpl; [done|].
  repeat (constructor; [by eauto|]). done.
Qed.

Lemma start_server_frame uuid4 s :
  let s' := start_server uuid4 s in
  maxsize s' = maxsize s /\ workers s' = workers s /\ closing s' = closing s /\
  tasks s' = tasks s /\ fut s' = fut s /\ handlers s' = handlers s /\
  submissions s' = submissions s /\ sent s' = sent s.
Proof.
  unfold start_server.
  destruct (run_start_frame
              (start_server_events uuid4 (workers s) (length (starts s))
                 (length (threads s))) s) as (? & ? & ? & ? & ? & ? & ? & ?);
    [apply start_server_events_start|done].
Qed.

Lemma full_spec s :
  full s = true <-> (0 < maxsize s)%Z /\ (maxsize s <= Z.of_nat (length (tasks s)))%Z.
Proof. unfold full. repeat case_match; lia. Qed.

Lemma react_queue_ok e s : queue_ok s -> queue_ok (react e s).
Proof.
  unfold queue_ok. destruct (react_config e s) as (_ & _ & _ & ->).
  intros Hok Hpos. specialize (Hok Hpos).
  destruct (react_tasks e s) as [?|[Hfull ->]]; [lia|].
  destruct (full s) eqn:E; [done|].
  assert (~ ((0 < maxsize s)%Z /\ (maxsize s <= Z.of_nat (length (tasks s)))%Z)).
  { rewrite <- full_spec. congruence. }
  lia.
Qed.

Lemma run_queue_ok es s : queue_ok s -> queue_ok (run es s).
Proof.
  revert s. induction es as [|e es IH]; intros s H; simpl; [done|].
  by apply IH, react_queue_ok.
Qed.

Lemma run_accepted_resolved es s :
  accepted_resolved s -> accepted_resolved (run es s).
Proof.
  revert s. induction es as [|e es IH]; intros s H; simpl; [done|].
  by apply IH, react_accepted_resolved.
Qed.

Lemma in_flight_serving (l : list handler) :
  length (omap handler_task l) <= length (List.filter serving l).
Proof.
  induction l as [|h l IH]; simpl; [done|].
  destruct h; simpl; change (list_omap _ _ handler_task l) with (omap handler_task l); lia.
Qed.

Lemma outstanding_le s :
  outstanding s <= length (tasks s) + length (List.filter serving (handlers s)).
Proof.
  unfold outstanding, in_flight.
  etransitivity; [apply List.filter_length_le|].
  rewrite length_app. pose proof (in_flight_serving (handlers s)). lia.
Qed.

(** * The claims *)

(** C1 (as stated: refuted). With [max_overflow = 0] the queue is built with
    [maxsize = 0]: it is never full. Three submissions to a pool of one
    worker are all put on the queue at once, none is suspended, and three
    tasks with an unresolved result future are queued, more than
    [workers + max_overflow = 1]. *)
Lemma queue_unbounded_without_overflow :
  let s := run [Submit example_call; Submit example_call; Submit example_call]
               (example_pool 1 0) in
  maxsize s = 0%Z /\ workers s = 1 /\
  length (tasks s) = 3 /\
  existsb in_put (submissions s) = false /\
  outstanding s = 3 /\
  ~ (Z.of_nat (outstanding s) <= Z.of_nat (workers s) + maxsize s)%Z.
Proof. vm_compute. split_and!; try done. Qed.

(** C1 (amended). The queue is built with [maxsize = max_overflow].  When
    [max_overflow > 0] the queue never holds more than [max_overflow]
    descriptors, and the tasks with an unresolved result future that are
    queued or in flight never outnumber [max_overflow] plus the handlers
    that serve a child.  [put] finds the queue full exactly when
    [max_overflow > 0] and the queue holds [max_overflow] descriptors: then
    [create_task] is suspended with the queue unchanged, and stays so while
    the queue is full; in every other case, and always when
    [max_overflow <= 0], the descriptor is appended at once. *)
Theorem queue_capacity :
  forall hasher cookie workers max_overflow uuid4 es,
    let s := run es (start_server uuid4
                       (__init__ hasher cookie workers max_overflow)) in
    maxsize s = max_overflow /\
    ((0 < max_overflow)%Z ->
     (Z.of_nat (length (tasks s)) <= max_overflow)%Z /\
     (Z.of_nat (outstanding s)
      <= max_overflow + Z.of_nat (length (List.filter serving (handlers s))))%Z) /\
    (full s = true <->
     (0 < max_overflow)%Z /\ Z.of_nat (length (tasks s)) = max_overflow) /\
    (forall cl,
       let s' := react (Submit cl) s in
       let t := Task cl (length (fut s)) (S (length (fut s))) in
       if full s
       then tasks s' = tasks s /\ submissions s' = submissions s ++ [SPut t]
       else tasks s' = tasks s ++ [t] /\
            submissions s' = submissions s ++ [SAwaitProcess t]) /\
    (forall i t,
       submissions s !! i = Some (SPut t) -> full s = true ->
       react (Put i) s = s).
Proof.
  intros hasher ck w m uuid4 es s.
  set (s0 := start_server uuid4 (__init__ hasher ck w m)) in *.
  assert (maxsize s = m) as Hm.
  { unfold s. destruct (run_config es s0) as (_ & _ & _ & ->).
    unfold s0. by destruct (start_server_frame uuid4 (__init__ hasher ck w m))
      as (-> & _). }
  assert (queue_ok s) as Hok.
  { apply run_queue_ok. unfold queue_ok, s0.
    destruct (start_server_frame uuid4 (__init__ hasher ck w m))
      as (_ & _ & _ & -> & _). simpl. lia. }
  unfold queue_ok in Hok. rewrite Hm in Hok.
  split_and!.
  - done.
  - intros Hpos. specialize (Hok Hpos). split; [done|].
    pose proof (outstanding_le s). lia.
  - rewrite full_spec, Hm. split; intros [Hpos ?]; (split; [done|]).
    + specialize (Hok Hpos). lia.
    + lia.
  - intros cl. simpl. unfold create_task, create_future, put_nowait. simpl.
    rewrite length_app. simpl.
    replace (length (fut s) + 1) with (S (length (fut s))) by lia.
    match goal with |- context [full (set_futures ?a ?b)] =>
      change (full (set_futures a b)) with (full s) end.
    by destruct (full s).
  - intros i t Hi Hf. simpl. unfold create_task_put. by rewrite Hi, Hf.
Qed.

Lemma queue_capacity_witness :
  let s := run [Submit example_call; Submit example_call; Submit example_call]
               (example_pool 1 1) in
  (0 < 1)%Z /\
  (Z.of_nat (length (tasks s)) <= 1)%Z /\
  (Z.of_nat (outstanding s)
   <= 1 + Z.of_nat (length (List.filter serving (handlers s))))%Z.
Proof.
  intros s. split; [lia|].
  apply (proj1 (proj2 (queue_capacity example_hasher example_cookie 1 1
                         example_uuid4
                         [Submit example_call; Submit example_call;
                          Submit example_call]))).
  lia.
Defined.

(** C2. A submission is waiting for its result when [close()] runs: its
    result future is registered and pending.  [close()] hands the futures
    to [cancel_tasks] and never calls [__reject_futures]: after [close()]
    has returned the future is cancelled.  Rejecting it with the
    "Pool closed" error is what [__reject_futures] would have done. *)
Theorem close_cancels_instead_of_rejecting :
  let s := run (example_handshake ++ [Submit example_call; Get 0; Wake 0])
               (example_pool 1 0) in
  0 ∈ futures s /\
  fut s !! 0 = Some Pending /\
  fut (run [Close; CloseResume] s) !! 0 = Some Cancelled /\
  fut (reject_futures s) !! 0
  = Some (Exception (RuntimeError "Pool closed")).
Proof.
  intros s.
  assert (elements (futures s) = [1; 0]) as G0 by (vm_compute; reflexivity).
  assert (fut s !! 0 = Some Pending) as G2 by (vm_compute; reflexivity).
  assert (fut (reject_futures s) !! 0
          = Some (Exception (RuntimeError "Pool closed"))) as G4
    by (vm_compute; reflexivity).
  clearbody s.
  assert (0 ∈ futures s) as G1.
  { apply elem_of_elements. rewrite G0.
    apply elem_of_cons. right. apply elem_of_cons. by left. }
  split; [exact G1|]. split; [exact G2|]. split; [|exact G4].
  rewrite (run_cons Close [CloseResume] s).
  apply (run_fut_stable [CloseResume] (react Close s) 0 Cancelled); [|done].
  apply close_cancels_registered; [exact G1|exact G2].
Qed.

Lemma run_not_closed es s c r :
  handlers s !! c = Some (HDone r) ->
  CbWriterClose c ∉ ready s -> c ∉ closed s -> ConnectionLost c ∉ es ->
  c ∉ closed (run es s).
Proof.
  revert s. induction es as [|e es IH]; intros s Hh Hr Hc Hes; simpl; [done|].
  apply IH.
  - by apply react_handler_done.
  - intros Hin. by apply Hr, (react_ready_done e s c r).
  - intros [?|[->|[-> Hhd]]]%react_closed; [done| |].
    + apply Hes. left.
    + apply Hr. destruct (ready s); simplify_eq/=. left.
  - intros Hin. apply Hes. by right.
Qed.

(** A handler that receives a digest other than [H(salt ‖ cookie)] sends
    EXCEPTION with the authentication error and ends by raising it
    (lines 147-150); from there nothing more is written to the connection,
    and nothing the pool does closes it. *)
Lemma digest_mismatch s c salt digest :
  handlers s !! c = Some (HRecvDigest (DBytes salt)) ->
  digest_ne digest (HASHER s (salt ++ cookie s)) = true ->
  let exc := AuthenticationError "Invalid cookie" in
  let s' := react (Recv c (AUTH_DIGEST, digest)) s in
  s' = set_handler c (HDone (Some exc)) (send c EXCEPTION (DExn exc) s) /\
  forall es,
    handlers (run es s') !! c = Some (HDone (Some exc)) /\
    sent_on c (run es s') = sent_on c s ++ [(EXCEPTION, DExn exc)] /\
    (CbWriterClose c ∉ ready s -> c ∉ closed s -> ConnectionLost c ∉ es ->
     c ∉ closed (run es s')).
Proof.
  intros Hh Hne exc s'.
  assert (c < length (handlers s)) by (by eapply lookup_lt_Some).
  assert (s' = set_handler c (HDone (Some exc)) (send c EXCEPTION (DExn exc) s))
    as ->.
  { unfold s'. simpl. rewrite Hh. unfold handler_digest. simpl.
    by rewrite Hne. }
  split; [done|]. intros es.
  assert (handlers (set_handler c (HDone (Some exc))
                      (send c EXCEPTION (DExn exc) s)) !! c
          = Some (HDone (Some exc))) as Hd.
  { simpl. by apply list_lookup_insert_eq. }
  split_and!.
  - by apply run_handler_done.
  - erewrite run_sent_done by done. unfold sent_on. simpl.
    rewrite List.filter_app, fmap_app. simpl. by rewrite Nat.eqb_refl.
  - intros. by eapply run_not_closed.
Qed.

(** C3. Connection 0 sends AUTH_SALT and then a digest that is not
    [H(salt ‖ cookie)].  The handler sends EXCEPTION with the
    authentication error and ends by raising it (lines 147-150); nothing
    else, so no REQUEST, is ever written to the connection.  But the handler
    does not close the writer and hands no [writer.close] to the loop: in
    every run from there the connection is not closed unless the transport
    is lost. *)
Theorem digest_mismatch_leaves_connection_open :
  let exc := AuthenticationError "Invalid cookie" in
  let s := react (Recv 0 (AUTH_DIGEST, DBytes [x00]))
             (run [Accept; Recv 0 (AUTH_SALT, DBytes [x07])]
                  (example_pool 1 0)) in
  handlers s !! 0 = Some (HDone (Some exc)) /\
  sent_on 0 s = [(EXCEPTION, DExn exc)] /\
  closed s = ∅ /\ ready s = [] /\
  forall es,
    sent_on 0 (run es s) = [(EXCEPTION, DExn exc)] /\
    (ConnectionLost 0 ∉ es -> 0 ∉ closed (run es s)).
Proof.
  intros exc s.
  assert (handlers s !! 0 = Some (HDone (Some exc))) as G1 by (by vm_compute).
  assert (sent_on 0 s = [(EXCEPTION, DExn exc)]) as G2 by (by vm_compute).
  assert (closed s = ∅) as G3 by (by vm_compute).
  assert (ready s = []) as G4 by (by vm_compute).
  split; [exact G1|]. split; [exact G2|]. split; [exact G3|].
  split; [exact G4|].
  clearbody s. intros es. split.
  - by rewrite (run_sent_done es s 0 _ G1).
  - intros Hl. apply (run_not_closed es s 0 _ G1); [|by rewrite G3|done].
    rewrite G4. apply not_elem_of_nil.
Qed.

Lemma digest_mismatch_leaves_connection_open_witness :
  let s := react (Recv 0 (AUTH_DIGEST, DBytes [x00]))
             (run [Accept; Recv 0 (AUTH_SALT, DBytes [x07])]
                  (example_pool 1 0)) in
  let es := [CallSoon; Accept; Recv 0 (IDENTITY, DStr (example_uuid4 0))] in
  (ConnectionLost 0 ∉ es) /\ (0 ∉ closed (run es s)).
Proof.
  intros s es.
  assert (ConnectionLost 0 ∉ es) as Hes.
  { intros Hc. unfold es in Hc.
    repeat (apply elem_of_cons in Hc as [Hc|Hc]; [discriminate Hc|]).
    by apply elem_of_nil in Hc. }
  split; [exact Hes|].
  destruct digest_mismatch_leaves_connection_open as (_ & _ & _ & _ & H).
  exact (proj2 (H es) Hes).
Defined.

(** C4. Connection 0 passes the digest check and then sends IDENTITY with
    an identity that is not in the pending table.
    [self.__spawning.pop(identity)] raises [KeyError]: the handler ends with
    that exception, not with an authentication error, and the connection
    gets no EXCEPTION packet; the child of the pool is still in the table.
    The handler does not close the writer and hands no [writer.close] to
    the loop: in every run from there nothing more is written to the
    connection, and it is not closed unless the transport is lost. *)
Theorem unknown_identity_raises_key_error :
  let s := react (Recv 0 (IDENTITY, DStr "ghost"))
             (run [Accept; Recv 0 (AUTH_SALT, DBytes [x07]);
                   Recv 0 (AUTH_DIGEST, DBytes [x3c; xa5; x5a; x07])]
                  (example_pool 1 0)) in
  handlers s !! 0 = Some (HDone (Some KeyError)) /\
  (forall msg, HDone (Some KeyError) <> HDone (Some (AuthenticationError msg))) /\
  sent_on 0 s = [(AUTH_OK, DBool true)] /\
  spawning s !! example_uuid4 0 = Some 0 /\
  closed s = ∅ /\ ready s = [] /\
  forall es,
    sent_on 0 (run es s) = [(AUTH_OK, DBool true)] /\
    (ConnectionLost 0 ∉ es -> 0 ∉ closed (run es s)).
Proof.
  intros s.
  assert (handlers s !! 0 = Some (HDone (Some KeyError))) as G1
    by (by vm_compute).
  assert (sent_on 0 s = [(AUTH_OK, DBool true)]) as G2 by (by vm_compute).
  assert (spawning s !! example_uuid4 0 = Some 0) as G3 by (by vm_compute).
  assert (closed s = ∅) as G4 by (by vm_compute).
  assert (ready s = []) as G5 by (by vm_compute).
  split; [exact G1|]. split; [intros msg; discriminate|].
  split; [exact G2|]. split; [exact G3|]. split; [exact G4|].
  split; [exact G5|].
  clearbody s. intros es. split.
  - by rewrite (run_sent_done es s 0 _ G1).
  - intros Hl. apply (run_not_closed es s 0 _ G1); [|by rewrite G4|done].
    rewrite G5. apply not_elem_of_nil.
Qed.

Lemma unknown_identity_raises_key_error_witness :
  let s := react (Recv 0 (IDENTITY, DStr "ghost"))
             (run [Accept; Recv 0 (AUTH_SALT, DBytes [x07]);
                   Recv 0 (AUTH_DIGEST, DBytes [x3c; xa5; x5a; x07])]
                  (example_pool 1 0)) in
  let es := [CallSoon; Recv 0 (IDENTITY, DStr (example_uuid4 0)); Close;
             CloseResume] in
  (ConnectionLost 0 ∉ es) /\ (0 ∉ closed (run es s)).
Proof.
  intros s es.
  assert (ConnectionLost 0 ∉ es) as Hes.
  { intros Hc. unfold es in Hc.
    repeat (apply elem_of_cons in Hc as [Hc|Hc]; [discriminate Hc|]).
    by apply elem_of_nil in Hc. }
  split; [exact Hes|].
  destruct unknown_identity_raises_key_error as (_ & _ & _ & _ & _ & _ & H).
  exact (proj2 (H es) Hes).
Defined.

(** C6. A future that is resolved is never resolved again: in every run it
    keeps the state it was resolved to.  A handler that takes a task off the
    queue and finds its process future resolved drops the task and goes back
    to the queue, with nothing sent and no future touched.  Otherwise it
    resolves the process future to its own child, the result future being
    left as it was; then, if the result future is resolved, it drops the
    task in the same way, and if not, it sends the REQUEST and waits for
    the response.  So in every state of a pool, a task that a handler is
    working on, the only place where a handler resolves a result future,
    has its process future resolved. *)
Theorem futures_resolved_once :
  (forall es s f st,
     fut s !! f = Some st -> done st = true ->
     fut (run es s) !! f = Some st) /\
  (forall s c p,
     handlers s !! c = Some (HGet p) -> tasks s <> [] ->
     react (Get c) s = handler_loop c p (tasks s) s) /\
  (forall c p s,
     handler_loop c p [] s = set_handler c (HGet p) (set_tasks [] s)) /\
  (forall c p t q s,
     future_done (process_future t) s = true ->
     handler_loop c p (t :: q) s = handler_loop c p q (set_tasks q s)) /\
  (forall c p t q s,
     fut s !! process_future t = Some Pending ->
     let s1 := picked_up p t q s in
     fut s1 !! process_future t = Some (Result (DPopen p)) /\
     (forall f, f <> process_future t -> fut s1 !! f = fut s !! f) /\
     sent s1 = sent s /\
     (future_done (result_future t) s1 = true ->
      handler_loop c p (t :: q) s = handler_loop c p q s1) /\
     (future_done (result_future t) s1 = false ->
      handler_loop c p (t :: q) s =
        set_handler c (HStep p t) (send c REQUEST (DCall (task_call t)) s1))) /\
  (forall hasher cookie workers max_overflow uuid4 es,
     accepted_resolved
       (run es (start_server uuid4
                  (__init__ hasher cookie workers max_overflow)))).
Proof.
  split_and!.
  - intros es s f st. apply run_fut_stable.
  - intros s c p Hc Hq. simpl. rewrite Hc. by destruct (tasks s).
  - apply handler_loop_nil.
  - intros c p t q s Hd. rewrite handler_loop_cons. simpl.
    unfold future_done in *. simpl. by rewrite Hd.
  - intros c p t q s Hp s1.
    assert (process_future t < length (fut s)) by (by eapply lookup_lt_Some).
    split_and!.
    + unfold s1, picked_up, call_soon. simpl. by apply list_lookup_insert_eq.
    + intros f Hf. unfold s1, picked_up, call_soon. simpl.
      by apply list_lookup_insert_ne.
    + done.
    + intros Hd. rewrite handler_loop_cons. simpl.
      unfold future_done at 1. simpl. rewrite Hp. simpl.
      rewrite (resolve_pending _ _ (set_tasks q s)) by done.
      simpl. fold (picked_up p t q s). fold s1. by rewrite Hd.
    + intros Hd. rewrite handler_loop_cons. simpl.
      unfold future_done at 1. simpl. rewrite Hp. simpl.
      rewrite (resolve_pending _ _ (set_tasks q s)) by done.
      simpl. fold (picked_up p t q s). fold s1. by rewrite Hd.
  - intros hasher ck w m uuid4 es. apply run_accepted_resolved.
    intros c h t Hh.
    destruct (start_server_frame uuid4 (__init__ hasher ck w m))
      as (_ & _ & _ & _ & _ & Hs & _).
    by rewrite Hs in Hh.
Qed.

Lemma futures_resolved_once_witness :
  let s := run (example_handshake ++ [Submit example_call; Get 0])
               (example_pool 1 0) in
  let es := [Cancel 0; Recv 0 (RESULT, DInt 5); Close; CallSoon] in
  fut s !! 1 = Some (Result (DPopen 0)) /\
  fut (run es s) !! 1 = Some (Result (DPopen 0)).
Proof.
  intros s es.
  assert (fut s !! 1 = Some (Result (DPopen 0))) as H1 by (by vm_compute).
  split; [done|].
  by apply (proj1 futures_resolved_once es s 1 (Result (DPopen 0))).
Defined.

(** C7 (as stated: refuted). The caller cancels a submission whose task is
    in flight: the result future is cancelled and the child is killed.  The
    read on the connection then fails with EOF, the handler finds the child
    dead, and [set_exception] on the cancelled future raises
    [InvalidStateError]: the result future is not resolved with a
    process-exit error, it stays cancelled, and the handler ends with the
    exception. *)
Lemma eof_after_cancel_keeps_cancellation :
  let t := Task example_call 0 1 in
  let s := run (example_handshake
                  ++ [Submit example_call; Get 0; Wake 0; Cancel 0])
               (example_pool 1 0) in
  let s' := react (RecvEOF 0) s in
  handlers s !! 0 = Some (HStep 0 t) /\
  fut s !! result_future t = Some Cancelled /\
  process_returncode 0 s' = Some (-9)%Z /\
  fut s' !! result_future t = Some Cancelled /\
  handlers s' !! 0 = Some (HDone (Some InvalidStateError)).
Proof. by vm_compute. Qed.

(** C7 (amended). When the read of a handler with a task in flight fails
    with EOF, the handler polls the child: as long as the child has not
    exited the handler waits, resolving and sending nothing.  Once the child
    has exited, and if the result future of the task is still unresolved,
    the handler resolves it with a process-exit error that names the process
    and carries its exit code, and leaves its loop: in every run from there
    the handler stays ended and nothing more is written to the
    connection. *)
Theorem eof_resolves_with_process_error :
  forall s c p t P e,
    (handlers s !! c = Some (HStep p t) /\ e = RecvEOF c) \/
    (handlers s !! c = Some (HWaitProcess p t) /\ e = HandlerPoll c) ->
    proc s !! p = Some P ->
    let s' := react e s in
    (returncode (poll P) = None ->
     handlers s' !! c = Some (HWaitProcess p t) /\
     fut s' = fut s /\ sent s' = sent s) /\
    (forall code,
       returncode (poll P) = Some code ->
       fut s !! result_future t = Some Pending ->
       fut s' !! result_future t
       = Some (Exception (ProcessError p (Some code))) /\
       handlers s' !! c = Some (HDone None) /\
       forall es,
         handlers (run es s') !! c = Some (HDone None) /\
         sent_on c (run es s') = sent_on c s).
Proof.
  intros s c p t P e He HP s'.
  assert (c < length (handlers s)) as Hlen.
  { destruct He as [[H _]|[H _]]; by eapply lookup_lt_Some. }
  assert (s' = handler_wait_process c p t s) as ->.
  { unfold s'. destruct He as [[H ->]|[H ->]]; simpl; by rewrite H. }
  unfold handler_wait_process, process_returncode, on_process. simpl.
  rewrite list_lookup_alter, decide_True, HP by done. simpl.
  split.
  - intros ->. unfold set_handler. simpl. split_and!; try done.
    by apply list_lookup_insert_eq.
  - intros code Hcode Hpend. rewrite Hcode.
    rewrite resolve_pending by done.
    unfold set_handler, call_soon. simpl.
    assert (result_future t < length (fut s)) by (by eapply lookup_lt_Some).
    split_and!.
    + by apply list_lookup_insert_eq.
    + by apply list_lookup_insert_eq.
    + intros es. split.
      * apply run_handler_done. simpl. by apply list_lookup_insert_eq.
      * erewrite run_sent_done; [done|]. simpl. by apply list_lookup_insert_eq.
Qed.

Lemma eof_resolves_with_process_error_witness :
  let t := Task example_call 0 1 in
  let s := run (example_handshake
                  ++ [Submit example_call; Get 0; Wake 0; Exit 0 3])
               (example_pool 1 0) in
  let s' := react (RecvEOF 0) s in
  handlers s !! 0 = Some (HStep 0 t) /\
  proc s !! 0 = Some {| exit_status := Some 3%Z; returncode := None;
                        signalled := false |} /\
  fut s !! result_future t = Some Pending /\
  fut s' !! result_future t = Some (Exception (ProcessError 0 (Some 3%Z))) /\
  handlers s' !! 0 = Some (HDone None).
Proof.
  intros t s s'.
  assert (handlers s !! 0 = Some (HStep 0 t)) as Hh by (by vm_compute).
  assert (proc s !! 0 = Some {| exit_status := Some 3%Z; returncode := None;
                                signalled := false |}) as HP by (by vm_compute).
  assert (fut s !! result_future t = Some Pending) as Hf by (by vm_compute).
  destruct (proj2 (eof_resolves_with_process_error s 0 0 t _ (RecvEOF 0)
                     (or_introl (conj Hh eq_refl)) HP) 3%Z eq_refl Hf)
    as (Hr & Hd & _).
  exact (conj Hh (conj HP (conj Hf (conj Hr Hd)))).
Defined.

(** C8. Child 0 of a pool of two workers exits, its [__wait_process] task
    sees it and [__on_exit] starts [respawn()].  The task finds the pool
    open (line 222) and hands [__create_process] to a thread (line 234).
    Then [close()] sets [closing] and cancels the task, which ends with
    [CancelledError]; the thread is not held back and launches the child:
    a process is created while the pool is closing.  The new process is in
    the pending table but never joins the fleet set, so [close()], which
    kills child 1, does not kill it: when [close()] has returned it is still
    running. *)
Theorem respawn_launches_child_after_close :
  let s := run [Exit 0 1; WaiterPoll 0; Respawn 0 (example_uuid4 2)]
               (example_pool 2 0) in
  let s1 := react Close s in
  let s2 := react (Thread 2) s1 in
  let s3 := react CloseResume s2 in
  (closing s = false /\
   respawns s !! 0 = Some (RCreate 0 2) /\
   threads s !! 2 = Some (TQueued (example_uuid4 2)) /\
   length (proc s) = 2) /\
  (closing s1 = true /\
   respawns s1 !! 0 = Some (RDone (Some CancelledError)) /\
   proc s1 = proc s) /\
  (closing s2 = true /\
   proc s2 = proc s1 ++ [Popen_new] /\
   spawning s2 !! example_uuid4 2 = Some 2 /\
   processes s2 = {[0; 1]}) /\
  (closers s3 = 0 /\
   processes s3 = ∅ /\
   proc s3 !! 1 = Some (kill Popen_new) /\
   proc s3 !! 2 = Some Popen_new).
Proof. intros s s1 s2 s3. split_and!; by vm_compute. Qed.

(** C9. A handler has taken the task, resolved its process future to
    child 0 and sent the REQUEST; the submission has not yet been resumed
    from [await process_future] (line 273), which is outside the [try] of
    lines 275-279.  The caller cancels now: the submission ends with
    [CancelledError] and the child, which is running the task, is not
    killed. *)
Lemma cancel_before_resume_kills_nothing :
  let t := Task example_call 0 1 in
  let s := run (example_handshake ++ [Submit example_call; Get 0])
               (example_pool 1 0) in
  let s' := react (Cancel 0) s in
  fut s !! process_future t = Some (Result (DPopen 0)) /\
  handlers s !! 0 = Some (HStep 0 t) /\
  submissions s !! 0 = Some (SAwaitProcess t) /\
  submissions s' !! 0 = Some (SDone (Raised CancelledError)) /\
  proc s' !! 0 = Some Popen_new.
Proof. by vm_compute. Qed.



(** C10. An entry of the pending table [self.__spawning] is inserted by a
    spawn, under the identity drawn for it; a key enters the table through a
    spawn only, when the thread to which the spawn handed [__create_process]
    with that identity runs it, and leaves it only when a handler that has
    accepted the digest receives IDENTITY with that key.  Hence, in every
    run where no connection presents the identity (the child failed the
    digest check or never connected), the entry stays in the table. *)
Theorem spawning_entry_lifetime :
  (forall identity s,
     spawning (create_process identity s).2
     = <[identity := length (proc s)]> (spawning s)) /\
  (forall e s k,
     k ∉ dom (spawning s) -> k ∈ dom (spawning (react e s)) ->
     exists j, e = Thread j /\ threads s !! j = Some (TQueued k)) /\
  (forall e s j k,
     threads s !! j = None -> threads (react e s) !! j = Some (TQueued k) ->
     (exists r, e = Respawn r k) \/ (exists i, e = StartResume i k)) /\
  (forall e s k,
     k ∈ dom (spawning s) -> k ∉ dom (spawning (react e s)) ->
     exists c, e = Recv c (IDENTITY, DStr k) /\
               handlers s !! c = Some HRecvIdentity) /\
  (forall es s k,
     k ∈ dom (spawning s) ->
     (forall c, Recv c (IDENTITY, DStr k) ∉ es) ->
     k ∈ dom (spawning (run es s))).
Proof.
  assert (forall e s k,
     k ∈ dom (spawning s) -> k ∉ dom (spawning (react e s)) ->
     exists c, e = Recv c (IDENTITY, DStr k) /\
               handlers s !! c = Some HRecvIdentity) as Hout.
  { intros e s k Hin Hout.
    destruct (react_spawning e s)
      as [E|[(c & k' & p & -> & Hc & Hk & E)|(j & k' & -> & Hj & E)]];
      rewrite E in Hout.
    - done.
    - rewrite dom_delete_L in Hout.
      destruct (decide (k = k')) as [->|]; [eauto|]. set_solver.
    - rewrite dom_insert_L in Hout. set_solver. }
  split_and!; [done| | |done|].
  - intros e s k Hout' Hin.
    destruct (react_spawning e s)
      as [E|[(c & k' & p & -> & Hc & Hk & E)|(j & k' & -> & Hj & E)]];
      rewrite E in Hin.
    + done.
    + rewrite dom_delete_L in Hin. set_solver.
    + rewrite dom_insert_L in Hin.
      destruct (decide (k = k')) as [->|]; [eauto|]. set_solver.
  - intros e s j k Hn Hj.
    destruct (react_threads e s)
      as [E|[(j' & k' & p & _ & Hj' & E)|(k' & He & E)]]; rewrite E in Hj.
    + congruence.
    + destruct (decide (j = j')) as [->|]; [congruence|].
      rewrite list_lookup_insert_ne in Hj by done. congruence.
    + apply lookup_app_Some in Hj as [Hj|[_ Hj]]; [congruence|].
      destruct (j - length (threads s)); simplify_eq/=. done.
  - intros es. induction es as [|e es IH]; intros s k Hin Hes; simpl; [done|].
    apply IH.
    + destruct (decide (k ∈ dom (spawning (react e s)))) as [|Hn]; [done|].
      destruct (Hout e s k Hin Hn) as (c & -> & _).
      exfalso. apply (Hes c). left.
    + intros c Hc. apply (Hes c). by right.
Qed.

Lemma spawning_entry_lifetime_witness :
  let s := example_pool 1 0 in
  let es := [Accept; Recv 0 (AUTH_SALT, DBytes [x07]);
             Recv 0 (AUTH_DIGEST, DBytes [x00])] in
  example_uuid4 0 ∈ dom (spawning s) /\
  example_uuid4 0 ∈ dom (spawning (run es s)).
Proof.
  intros s es.
  assert (example_uuid4 0 ∈ dom (spawning s)) as Hin.
  { apply elem_of_dom. exists 0. by vm_compute. }
  split; [done|].
  apply (proj2 (proj2 (proj2 (proj2 spawning_entry_lifetime)))); [done|].
  intros c Hc. unfold es in Hc.
  repeat (apply elem_of_cons in Hc as [Hc|Hc]; [discriminate Hc|]).
  by apply elem_of_nil in Hc.
Defined.

(** * More of the pool *)





































(** ** The registry of futures in a run *)
























